(** * Windowed aggregation and short-horizon forecast of the dashboards

    A shallow embedding of the numeric core of [forecast_dashboard.py] and
    of the bounded buffers of [app.py] / [forecast_dashboard.py].

    Conventions of the embedding.
    - A Python / numpy float is an exact rational ([Q]); equality of two
      computed floats is [Qeq] ([==]).  Rounding of binary floating point is
      outside the model.
    - A pandas [datetime64[ns]] value is the integer count of nanoseconds
      since the epoch ([Z]).  [aggregate_to_10s_bins] is the series the code
      computes from them; [aggregate_to_10s_bins_checked] adds the range of
      [datetime64[ns]], outside of which pandas raises.
    - A pandas [Series] with a datetime index is the ordered list of its
      [(index, value)] rows; the intermediate result of [groupby(...).sum()]
      is a finite map from group key to group sum.
    - An operation that raises in Python (division by zero, [pop] on an
      empty list) and the mean of an empty [Series] (NaN in pandas) return
      [None]; the code is written in the option monad. *)

From Stdlib Require Import ZArith QArith Qround Qabs Qminmax Lia Lqa.
From stdpp Require Import base option list gmap strings.

Local Open Scope Z_scope.

(** ** Floats *)

Module Float.
Local Open Scope Q_scope.

(** [sum(xs)] / [Series.sum()]. *)
Definition sum (xs : list Q) : Q := foldr Qplus 0 xs.

(** [a / b]; [ZeroDivisionError] is [None]. *)
Definition div (a b : Q) : option Q :=
  if Qeq_bool b 0 then None else Some (a / b).

(** [Series.mean()]: the sum divided by the number of rows; the mean of
    no rows is not a number. *)
Definition mean (xs : list Q) : option Q :=
  div (sum xs) (inject_Z (Z.of_nat (length xs))).

(** Python's [max(0, x)]: the second argument is returned only when it is
    strictly greater than the first. *)
Definition max0 (x : Q) : Q := if Qlt_le_dec 0 x then x else 0.

(** Rounding to the nearest integer, ties to the even one. *)
Definition round_half_even (y : Q) : Z :=
  let f := Qfloor y in
  match Qcompare (y - inject_Z f) (1 # 2) with
  | Lt => f
  | Gt => (f + 1)%Z
  | Eq => if Z.even f then f else (f + 1)%Z
  end.

(** [int(x)] and the cast of a float to an integer: truncation towards
    zero. *)
Definition int (x : Q) : Z := if Qlt_le_dec x 0 then Qceiling x else Qfloor x.
End Float.

(** ** Time *)

Module Time.
(** Nanoseconds in one second. *)
Definition ns_per_s : Z := 1000000000.

(** The least and the greatest [datetime64[ns]] value
    ([pd.Timestamp.min] and [pd.Timestamp.max]). *)
Definition min_ns : Z := -9223372036854775807.
Definition max_ns : Z := 9223372036854775807.

(** A timestamp pandas can hold; outside the range it raises
    [OutOfBoundsDatetime]. *)
Definition check (t : Z) : option Z :=
  if (min_ns <=? t) && (t <=? max_ns) then Some t else None.

(** [pd.to_datetime(col, unit="s")]: a float count of seconds becomes a
    nanosecond timestamp, rounded to the nearest nanosecond. *)
Definition to_datetime_s (t : Q) : Z :=
  Float.round_half_even (t * inject_Z ns_per_s).

(** [pd.Timestamp(x)] of a float, no [unit] given: pandas reads the number
    in its default unit, nanoseconds, and drops the fraction. *)
Definition Timestamp (x : Q) : Z := Float.int x.

(** [pd.Timedelta(minutes=m)]. *)
Definition Timedelta_minutes (m : Z) : Z := m * 60 * ns_per_s.

(** The frequency string ["10s"]. *)
Definition freq_10s : Z := 10 * ns_per_s.

(** [ts.floor(freq)] / [col.dt.floor(freq)]. *)
Definition floor (freq t : Z) : Z := t `div` freq * freq.

(** [pd.date_range(start=start, end=stop, freq=freq)]: every
    [start + i * freq] that does not pass [stop], both ends included. *)
Definition date_range (start stop freq : Z) : list Z :=
  if stop <? start then []
  else (λ i : nat, start + Z.of_nat i * freq) <$>
         seq 0 (S (Z.to_nat ((stop - start) `div` freq))).
End Time.

(** ** Series: [groupby], [reindex], [sort_index], [head], [tail] *)

(** One sales event, [{"timestamp": t, "price": price}]. *)
Record event := Event { timestamp : Q; price : Q }.

Module Series.
Local Open Scope Q_scope.

(** [df.groupby(key)[col].sum()] on rows [(key, value)]: each key is
    mapped to the sum of the values of its rows. *)
Definition groupby_sum (rows : list (Z * Q)) : gmap Z Q :=
  foldr (λ r acc, <[r.1 := r.2 + default 0 (acc !! r.1)]> acc) ∅ rows.

(** [s.reindex(index, fill_value=fill)]: one row per label of [index], in
    the order of [index]; a label [s] does not have gets [fill]. *)
Definition reindex (s : gmap Z Q) (index : list Z) (fill : Q) : list (Z * Q) :=
  (λ label, (label, default fill (s !! label))) <$> index.

Fixpoint insert_row (r : Z * Q) (rows : list (Z * Q)) : list (Z * Q) :=
  match rows with
  | [] => [r]
  | r' :: rest =>
      if (r.1 <=? r'.1)%Z then r :: rows else r' :: insert_row r rest
  end.

(** [s.sort_index()]: rows in ascending order of their label. *)
Definition sort_index (rows : list (Z * Q)) : list (Z * Q) :=
  foldr insert_row [] rows.

(** [s.tail(n)]: the last [n] rows (all of them when there are fewer). *)
Definition tail {A} (n : nat) (xs : list A) : list A :=
  drop (length xs - n) xs.

(** [s.head(n)]: the first [n] rows. *)
Definition head {A} (n : nat) (xs : list A) : list A := take n xs.
End Series.

(** ** Forecasting logic ([forecast_dashboard.py], lines 42-66) *)

(** The label of an event's row in the ["bin"] column (lines 46-47). *)
Definition bin_of (e : event) : Z :=
  Time.floor Time.freq_10s (Time.to_datetime_s (timestamp e)).

(** [end_bin] and [start_bin] of lines 49-50. *)
Definition end_bin (last_timestamp : Q) : Z :=
  Time.floor Time.freq_10s (Time.Timestamp last_timestamp).

Definition start_bin (last_timestamp : Q) : Z :=
  end_bin last_timestamp - Time.Timedelta_minutes 10.

Definition aggregate_to_10s_bins (events : list event) (last_timestamp : Q)
  : list (Z * Q) :=
  match events with
  | [] => []
  | _ =>
      let revenue_by_bin :=
        Series.groupby_sum ((λ e, (bin_of e, price e)) <$> events) in
      let full_index :=
        Time.date_range (start_bin last_timestamp) (end_bin last_timestamp)
          Time.freq_10s in
      Series.sort_index (Series.reindex revenue_by_bin full_index 0%Q)
  end.

(** The timestamps lines 46-50 form, each checked against the range of
    [datetime64[ns]]: the time of every event and its floor, the clock
    value, [end_bin] and [start_bin].  [None] is the
    [OutOfBoundsDatetime] pandas raises on one it cannot hold. *)
Definition timestamps_checked (events : list event) (last_timestamp : Q)
  : option unit :=
  _ ← mapM (λ e, t ← Time.check (Time.to_datetime_s (timestamp e));
                 Time.check (Time.floor Time.freq_10s t)) events;
  ts ← Time.check (Time.Timestamp last_timestamp);
  end_bin ← Time.check (Time.floor Time.freq_10s ts);
  _ ← Time.check (end_bin - Time.Timedelta_minutes 10);
  Some ().

(** [aggregate_to_10s_bins] with its exceptions: the series above when
    every timestamp fits, [None] when pandas raises. *)
Definition aggregate_to_10s_bins_checked (events : list event)
    (last_timestamp : Q) : option (list (Z * Q)) :=
  match events with
  | [] => Some []
  | _ =>
      _ ← timestamps_checked events last_timestamp;
      Some (aggregate_to_10s_bins events last_timestamp)
  end.

(** The three [return] statements of [forecast_next_60s_simple]
    (lines 57, 60 and 66). *)
Inductive return_site := InsufficientHistory | Idle | Projected.

(** [forecast_next_60s_simple] together with the [return] it leaves by.
    The argument is the value column of the series. *)
Definition forecast_trace (revenue_series : list Q) : option (return_site * Q) :=
  if (length revenue_series <? 6)%nat then Some (InsufficientHistory, 0%Q)
  else
    let recent := Series.tail 6 revenue_series in
    if Qeq_bool (Float.sum recent) 0 then Some (Idle, 0%Q)
    else
      baseline ← Float.mean recent;
      first_30s ← Float.mean (Series.head 3 recent);
      last_30s ← Float.mean (Series.tail 3 recent);
      let trend :=
        if Qlt_le_dec 0 first_30s then (last_30s - first_30s)%Q else 0%Q in
      let pred_per_bin := Float.max0 (baseline + trend / 2)%Q in
      Some (Projected, (pred_per_bin * 6)%Q).

Definition forecast_next_60s_simple (revenue_series : list Q) : option Q :=
  snd <$> forecast_trace revenue_series.

(** The error metric of line 137. *)
Definition mape (latest_forecast last_60s_actual : Q) : option Q :=
  if Qlt_le_dec 0 last_60s_actual then
    ratio ← Float.div (Qabs (latest_forecast - last_60s_actual)) last_60s_actual;
    Some (ratio * 100)%Q
  else Some 0%Q.

(** ** Bounded buffers *)

Module Buffer.
(** The slice [l[-k:]]; [-0] is [0], so [l[-0:]] is the whole list. *)
Definition slice_last {A} (k : nat) (l : list A) : list A :=
  if (k =? 0)%nat then l else drop (length l - k) l.

(** [data.append(p); data = data[-k:]] ([app.py], lines 61-62, with
    [k = 100]). *)
Definition append_keep_last {A} (k : nat) (data : list A) (p : A) : list A :=
  slice_last k (data ++ [p]).

(** [deque(maxlen=k).append(x)]: the item goes to the right end, and an
    over-full deque drops its leftmost item. *)
Definition deque_append {A} (maxlen : nat) (d : list A) (x : A) : list A :=
  let d' := d ++ [x] in
  if (maxlen <? length d')%nat then drop 1 d' else d'.

(** [d.extend(xs)]: [append] for each item in turn. *)
Definition deque_extend {A} (maxlen : nat) (d : list A) (xs : list A) : list A :=
  foldl (deque_append maxlen) d xs.

(** [l.pop(0)]; [IndexError] on the empty list is [None]. *)
Definition pop0 {A} (l : list A) : option (list A) :=
  match l with [] => None | _ :: rest => Some rest end.
End Buffer.

(** ** One run of the script ([forecast_dashboard.py], lines 71-121) *)

Record session_state := SessionState {
  events : list event;             (* deque(maxlen=1000) *)
  forecasts : list (Q * Q);        (* (timestamp, forecast_value) *)
  last_forecast_time : Q;
  should_run : bool
}.

(** What a run receives from outside: the two buttons, the batch the
    generator would produce, the clock, and the "Forecast Every" slider. *)
Record run_inputs := RunInputs {
  pause_clicked : bool;
  resume_clicked : bool;
  new_events : list event;
  current_time : Q;
  forecast_every : Q
}.

(** Lines 71-78. *)
Definition initial_state : session_state :=
  {| events := []; forecasts := []; last_forecast_time := 0%Q;
     should_run := true |}.

Definition set_should_run (b : bool) (st : session_state) : session_state :=
  {| events := events st; forecasts := forecasts st;
     last_forecast_time := last_forecast_time st; should_run := b |}.

(** Lines 95-101. *)
Definition buttons (inp : run_inputs) (st : session_state) : session_state :=
  let st1 := if pause_clicked inp then set_should_run false st else st in
  if resume_clicked inp then set_should_run true st1 else st1.

(** Lines 106-108. *)
Definition generate_events (inp : run_inputs) (st : session_state) : session_state :=
  if should_run st then
    {| events := Buffer.deque_extend 1000 (events st) (new_events inp);
       forecasts := forecasts st;
       last_forecast_time := last_forecast_time st;
       should_run := should_run st |}
  else st.

(** Lines 113-121. *)
Definition forecast_step (inp : run_inputs) (st : session_state)
  : option session_state :=
  if should_run st &&
     Qle_bool (forecast_every inp) (current_time inp - last_forecast_time st)
  then
    let revenue_bins := aggregate_to_10s_bins (events st) (current_time inp) in
    forecast_val ← forecast_next_60s_simple (snd <$> revenue_bins);
    let appended := forecasts st ++ [(current_time inp, forecast_val)] in
    kept ← (if (20 <? length appended)%nat then Buffer.pop0 appended
            else Some appended);
    Some {| events := events st; forecasts := kept;
            last_forecast_time := current_time inp;
            should_run := should_run st |}
  else Some st.

(** The state-changing part of one run: buttons, ingestion, forecast. *)
Definition refresh_pass (inp : run_inputs) (st : session_state)
  : option session_state :=
  forecast_step inp (generate_events inp (buttons inp st)).

(** Lines 113-121 and the whole run, with the exceptions of the
    aggregation. *)
Definition forecast_step_checked (inp : run_inputs) (st : session_state)
  : option session_state :=
  if should_run st &&
     Qle_bool (forecast_every inp) (current_time inp - last_forecast_time st)
  then
    revenue_bins ←
      aggregate_to_10s_bins_checked (events st) (current_time inp);
    forecast_val ← forecast_next_60s_simple (snd <$> revenue_bins);
    let appended := forecasts st ++ [(current_time inp, forecast_val)] in
    kept ← (if (20 <? length appended)%nat then Buffer.pop0 appended
            else Some appended);
    Some {| events := events st; forecasts := kept;
            last_forecast_time := current_time inp;
            should_run := should_run st |}
  else Some st.

Definition refresh_pass_checked (inp : run_inputs) (st : session_state)
  : option session_state :=
  forecast_step_checked inp (generate_events inp (buttons inp st)).

(** Event times and clock values well inside the range of
    [datetime64[ns]]: events within about 292 years of the epoch, in
    seconds, and a clock value whose window of ten minutes fits. *)
Definition event_in_range (e : event) : Prop :=
  (-9223372030 <= timestamp e)%Q ∧ (timestamp e <= 9223372030)%Q.

Definition clock_in_range (now : Q) : Prop :=
  (-9223371430000000000 <= now)%Q ∧ (now <= 9223372036854775807)%Q.

(** ** The formulas of the specification, in its own words

    Kept apart from the code above; the theorems below compare the two. *)

Module Spec.
Local Open Scope Q_scope.

Definition mean (xs : list Q) : Q :=
  Float.sum xs / inject_Z (Z.of_nat (length xs)).

(** The trailing [n] values of a series. *)
Definition trailing (n : nat) (xs : list Q) : list Q :=
  skipn (length xs - n) xs.

Definition baseline (bins : list Q) : Q := mean (trailing 6 bins).

Definition trend (bins : list Q) : Q :=
  let recent := trailing 6 bins in
  let first_half := firstn 3 recent in
  let second_half := trailing 3 recent in
  if Qlt_le_dec 0 (mean first_half) then mean second_half - mean first_half
  else 0.

Definition forecast (bins : list Q) : Q :=
  6 * Qmax 0 (baseline bins + trend bins / 2).

(** Relative error of a forecast against the realized value. *)
Definition relative_error_pct (predicted realized : Q) : Q :=
  Qabs (predicted - realized) / realized * 100.

Definition bin_width : Q := 10.
Definition window_duration : Q := 600.

(** [end_bin = floor(now / bin_width) * bin_width], in seconds. *)
Definition end_bin (now : Q) : Q :=
  inject_Z (Qfloor (now / bin_width)) * bin_width.

Definition start_bin (now : Q) : Q := end_bin now - window_duration.

(** The event's timestamp falls within [[start_bin, end_bin)]. *)
Definition in_window (now : Q) (e : event) : bool :=
  Qle_bool (start_bin now) (timestamp e) &&
  negb (Qle_bool (end_bin now) (timestamp e)).

(** Sum of the values of the events of the half-open window. *)
Definition window_total (now : Q) (evs : list event) : Q :=
  Float.sum (price <$> List.filter (in_window now) evs).
End Spec.

(** The projection the code computes once both guards are passed, written
    with total means. *)
Definition projection (recent : list Q) : Q :=
  let baseline := Spec.mean recent in
  let first_30s := Spec.mean (Series.head 3 recent) in
  let last_30s := Spec.mean (Series.tail 3 recent) in
  let trend :=
    if Qlt_le_dec 0 first_30s then (last_30s - first_30s)%Q else 0%Q in
  (Float.max0 (baseline + trend / 2) * 6)%Q.

(** ** Vocabulary of the statements about the aggregation *)

(** Start of the [i]-th bin of the window that ends at [now]. *)
Definition bin_start (now : Q) (i : nat) : Z :=
  start_bin now + Z.of_nat i * Time.freq_10s.

(** Sum of the prices of the events whose bin is [b]. *)
Definition bin_total (evs : list event) (b : Z) : Q :=
  Float.sum (price <$> filter (λ e, bin_of e = b) evs).

(** The event's time lies between the start of the first bin (included) and
    the end of the last bin (excluded). *)
Definition in_bins_window (now : Q) (e : event) : Prop :=
  start_bin now ≤ Time.to_datetime_s (timestamp e)
                < end_bin now + Time.freq_10s.

#[global] Instance in_bins_window_dec now e : Decision (in_bins_window now e).
Proof. unfold in_bins_window. apply _. Defined.

(** ** Further vocabulary *)


(** Successive runs of the script, each with its own inputs. *)
Fixpoint run_passes (inps : list run_inputs) (st : session_state)
  : option session_state :=
  match inps with
  | [] => Some st
  | inp :: rest => st' ← refresh_pass_checked inp st; run_passes rest st'
  end.

(** ** Rendering of the forecast dashboard
       ([forecast_dashboard.py], lines 126-137) *)

(** What the page shows: the waiting notice of line 185, or the three
    metrics of lines 142-144. *)
Inductive rendered := Initializing | Metrics (predicted actual error : Q).

(** Lines 128-131: the prices of the events later than sixty seconds before
    [wall_clock], the value of [pd.Timestamp.now()]. *)
Definition last_60s_actual (evs : list event) (wall_clock : Z) : Q :=
  Float.sum
    (price <$>
       filter (λ e, wall_clock - 60 * Time.ns_per_s
                      < Time.to_datetime_s (timestamp e)) evs).

(** Line 134; [forecasts[-1]] raises [IndexError] on an empty list. *)
Definition latest_forecast (fs : list (Q * Q)) : option Q :=
  match fs with
  | [] => Some 0%Q
  | _ => snd <$> last fs
  end.


(** ** The activity dashboard ([app.py]) *)

Module App.

(** A point of the stream, [{"timestamp": t, "value": v}]. *)
Record data_point := DataPoint { timestamp : Q; value : Q }.

Record session_state := SessionState {
  data : list data_point;
  should_run : bool
}.

(** The buttons and the point [generate_data_point] would return. *)
Record run_inputs := RunInputs {
  pause_clicked : bool;
  resume_clicked : bool;
  new_point : data_point
}.

(** Lines 24-27. *)
Definition initial_state : session_state :=
  {| data := []; should_run := true |}.

(** Lines 44-50. *)
Definition buttons (inp : run_inputs) (st : session_state) : session_state :=
  let st1 :=
    if pause_clicked inp then {| data := data st; should_run := false |}
    else st in
  if resume_clicked inp then {| data := data st1; should_run := true |}
  else st1.

(** Lines 55-62. *)
Definition ingest (inp : run_inputs) (st : session_state) : session_state :=
  if should_run st then
    {| data := Buffer.append_keep_last 100 (data st) (new_point inp);
       should_run := should_run st |}
  else st.

Definition refresh_pass (inp : run_inputs) (st : session_state)
  : session_state :=
  ingest inp (buttons inp st).

(** [Series.max()] and [Series.min()]; no value for no rows. *)
Definition series_max (xs : list Q) : option Q :=
  match xs with
  | [] => None
  | x :: rest => Some (foldl (λ m y, if Qlt_le_dec m y then y else m) x rest)
  end.

Definition series_min (xs : list Q) : option Q :=
  match xs with
  | [] => None
  | x :: rest => Some (foldl (λ m y, if Qlt_le_dec y m then y else m) x rest)
  end.

(** The waiting notice of line 98, or current, peak and low of
    lines 71-78. *)
Inductive rendered := Initializing | Metrics (current peak low : Q).

(** Lines 67-78; [iloc[-1]] raises [IndexError] on no rows. *)
Definition render (st : session_state) : option rendered :=
  match data st with
  | [] => Some Initializing
  | _ =>
      let values := value <$> data st in
      current ← last values;
      peak ← series_max values;
      low ← series_min values;
      Some (Metrics current peak low)
  end.

End App.

(** ** The sales dashboard ([sales_dashboard.py], lines 92-109) *)

Module Sales.

(** The fields of a sale that the metrics read. *)
Record sale := Sale {
  timestamp : Q;
  price : Q;
  traffic_this_min : Z
}.

Record key_metrics := KeyMetrics {
  revenue_last_min : Q;
  orders_last_min : nat;
  aov : Q;
  conversion_rate : Q
}.

(** Lines 97-98: the sales later than sixty seconds before [wall_clock]. *)
Definition recent_sales (sales : list sale) (wall_clock : Z) : list sale :=
  filter (λ e, wall_clock - 60 * Time.ns_per_s
                 < Time.to_datetime_s (timestamp e)) sales.

(** Lines 100-107. *)
Definition compute_metrics (recent : list sale) : option key_metrics :=
  match recent with
  | [] => Some (KeyMetrics 0 0 0 0)
  | _ =>
      let revenue := Float.sum (price <$> recent) in
      let orders := length recent in
      let orders_f := inject_Z (Z.of_nat orders) in
      aov ← (if (0 <? orders)%nat then Float.div revenue orders_f
             else Some 0%Q);
      avg_traffic ← Float.mean ((λ e, inject_Z (traffic_this_min e)) <$> recent);
      conversion ←
        (if Qlt_le_dec 0 avg_traffic then
           ratio ← Float.div orders_f avg_traffic; Some (ratio * 100)%Q
         else Some 0%Q);
      Some (KeyMetrics revenue orders aov conversion)
  end.

(** Line 109. *)
Definition total_revenue (sales : list sale) : Q := Float.sum (price <$> sales).

End Sales.

(** ** The event generator ([forecast_dashboard.py], lines 13-37) *)

Module Random.
Local Open Scope Q_scope.

(** A computation that reads [random.random()]: [u] is the sequence of
    uniform draws, the cursor counts the draws already read, and [None] is
    a raised exception. *)
Definition M (A : Type) : Type := (nat → Q) → nat → option (A * nat).

Definition ret {A} (a : A) : M A := λ _ i, Some (a, i).

Definition bind {A B} (m : M A) (f : A → M B) : M B :=
  λ u i, match m u i with
         | None => None
         | Some (a, j) => f a u j
         end.

Definition raise {A} : M A := λ _ _, None.

(** An operation that may raise, run inside the computation. *)
Definition lift {A} (o : option A) : M A :=
  match o with Some a => ret a | None => raise end.

(** [random.random()]. *)
Definition random : M Q := λ u i, Some (u i, S i).

(** [itertools.accumulate(ws)]: the running sums. *)
Fixpoint accumulate_from (acc : Q) (ws : list Q) : list Q :=
  match ws with
  | [] => []
  | w :: rest => (acc + w) :: accumulate_from (acc + w) rest
  end.

Definition accumulate (ws : list Q) : list Q :=
  match ws with
  | [] => []
  | w :: rest => w :: accumulate_from w rest
  end.

(** The loop of [bisect.bisect_right(a, x, lo, hi)]; [a[mid]] raises
    [IndexError] out of range, and [fuel] bounds the iterations. *)
Fixpoint bisect_loop (fuel : nat) (a : list Q) (x : Q) (lo hi : nat)
  : option nat :=
  if (lo <? hi)%nat then
    match fuel with
    | O => None
    | S fuel' =>
        let mid := ((lo + hi) `div` 2)%nat in
        match a !! mid with
        | None => None
        | Some a_mid =>
            if Qlt_le_dec x a_mid then bisect_loop fuel' a x lo mid
            else bisect_loop fuel' a x (S mid) hi
        end
    end
  else Some lo.

Definition bisect (a : list Q) (x : Q) (lo hi : nat) : option nat :=
  bisect_loop (hi - lo) a x lo hi.

(** [random.choices(population, weights=weights)[0]]. *)
Definition choices {A} (population : list A) (weights : list Q) : M A :=
  let n := length population in
  let cum_weights := accumulate weights in
  if negb (length cum_weights =? n)%nat then raise
  else
    bind (lift (last cum_weights)) (λ total,
    if Qle_bool total 0 then raise
    else
      bind random (λ r,
      bind (lift (bisect cum_weights (r * total) 0 (n - 1))) (λ i,
      lift (population !! i)))).

(** [random.uniform(a, b)]. *)
Definition uniform (a b : Q) : M Q :=
  bind random (λ r, ret (a + (b - a) * r)).

(** [round(x, 2)]. *)
Definition round2 (x : Q) : Q :=
  inject_Z (Float.round_half_even (x * 100)) / 100.

End Random.

(** An entry of [CATEGORIES]. *)
Record category := Category { price_range : Z * Z; weight : Q }.

Definition CATEGORIES : list (string * category) :=
  [ ("Electronics", Category (80, 400)%Z (30 # 100)%Q);
    ("Apparel", Category (25, 120)%Z (35 # 100)%Q);
    ("Home & Garden", Category (40, 200)%Z (20 # 100)%Q);
    ("Beauty", Category (15, 90)%Z (10 # 100)%Q);
    ("Toys & Games", Category (20, 150)%Z (5 # 100)%Q) ].

(** [d[k]] on a dictionary kept in insertion order; [KeyError] is
    [None]. *)
Fixpoint dict_get {V} (d : list (string * V)) (k : string) : option V :=
  match d with
  | [] => None
  | (k', v) :: rest => if decide (k' = k) then Some v else dict_get rest k
  end.

(** The body of the loop of lines 31-36, [n] times. *)
Fixpoint order_loop (n : nat) (t : Q) (events : list event)
  : Random.M (list event) :=
  match n with
  | O => Random.ret events
  | S n' =>
      let categories := fst <$> CATEGORIES in
      let weights := (λ kv, weight kv.2) <$> CATEGORIES in
      Random.bind (Random.choices categories weights) (λ category,
      Random.bind (Random.lift (dict_get CATEGORIES category)) (λ info,
      let min_p := inject_Z (price_range info).1 in
      let max_p := inject_Z (price_range info).2 in
      Random.bind (Random.uniform min_p max_p) (λ x,
      let price := Random.round2 x in
      order_loop n' t (events ++ [Event t price]))))
  end.

(** [generate_sales_event]; [t] is the value of [time.time()], and [sin]
    and [pi] stand for [math.sin] and [math.pi]. *)
Definition generate_sales_event (sin : Q → Q) (pi : Q)
    (base_hourly_revenue : Q) (holiday_mode : bool) (t : Q)
  : Random.M (list event) :=
  let hour := ((Float.int t `div` 3600) `mod` 24)%Z in
  let peak_factor := (1 + (3 # 10) * sin (inject_Z (hour - 14) * pi / 12))%Q in
  let peak_factor := if holiday_mode then (peak_factor * 2)%Q else peak_factor in
  let base_events_per_sec := (base_hourly_revenue / 3600 / 100)%Q in
  let events_per_sec := (base_events_per_sec * peak_factor)%Q in
  Random.bind
    (Random.choices [1; 2; 3; 4]%nat
       [6 # 10; 25 # 100; 1 # 10; 5 # 100]%Q)
    (λ num_orders, order_loop num_orders t []).

(** An event stamped [t] whose price is a whole number of cents within the
    price range of one of the categories. *)
Definition well_priced (t : Q) (e : event) : Prop :=
  timestamp e = t ∧
  (∃ cents : Z, price e = (inject_Z cents / 100)%Q) ∧
  ∃ name info,
    (name, info) ∈ CATEGORIES ∧
    (inject_Z (price_range info).1 <= price e)%Q ∧
    (price e <= inject_Z (price_range info).2)%Q.

(** * Properties *)

(** ** Floats *)

Section FloatFacts.
Local Open Scope Q_scope.

Lemma sum_cons x xs : Float.sum (x :: xs) = x + Float.sum xs.
Proof. reflexivity. Qed.

Lemma sum_app xs ys : Float.sum (xs ++ ys) == Float.sum xs + Float.sum ys.
Proof.
  induction xs as [|x xs IH]; simpl.
  - lra.
  - rewrite IH. lra.
Qed.

Lemma div_Some a b : ¬ b == 0 → Float.div a b = Some (a / b).
Proof.
  intros Hb. unfold Float.div.
  destruct (Qeq_bool b 0) eqn:E; [|done].
  apply Qeq_bool_iff in E. contradiction.
Qed.

Lemma inject_length_pos {A} (xs : list A) :
  xs ≠ [] → ¬ inject_Z (Z.of_nat (length xs)) == 0.
Proof.
  intros Hne Hz. destruct xs as [|x xs]; [done|].
  unfold Qeq in Hz. simpl in Hz. lia.
Qed.

Lemma mean_Some xs : xs ≠ [] → Float.mean xs = Some (Spec.mean xs).
Proof.
  intros Hne. unfold Float.mean, Spec.mean.
  by apply div_Some, inject_length_pos.
Qed.

Lemma max0_nonneg x : 0 <= Float.max0 x.
Proof. unfold Float.max0. destruct (Qlt_le_dec 0 x); lra. Qed.

Lemma max0_Qmax x : Float.max0 x == Qmax 0 x.
Proof.
  unfold Float.max0. destruct (Qlt_le_dec 0 x) as [H|H].
  - rewrite Q.max_r; lra.
  - rewrite Q.max_l; lra.
Qed.
Lemma round_half_even_between (lo hi : Z) (y : Q) :
  inject_Z lo <= y → y <= inject_Z hi →
  (lo ≤ Float.round_half_even y ≤ hi)%Z.
Proof.
  intros Hlo Hhi. unfold Float.round_half_even.
  pose proof (Qfloor_le y) as Hfl.
  pose proof (Qlt_floor y) as Hfu.
  assert (Hf1 : (lo ≤ Qfloor y)%Z).
  { rewrite <- (Qfloor_Z lo). by apply Qfloor_resp_le. }
  assert (Hf2 : (Qfloor y ≤ hi)%Z).
  { rewrite <- (Qfloor_Z hi). by apply Qfloor_resp_le. }
  assert (Hstep : 1 # 2 <= y - inject_Z (Qfloor y) → (Qfloor y + 1 ≤ hi)%Z).
  { intros Hhalf. destruct (Z.eq_dec (Qfloor y) hi) as [Heq|Hneq]; [|lia].
    rewrite Heq in Hhalf. lra. }
  destruct (Qcompare_spec (y - inject_Z (Qfloor y)) (1 # 2)) as [Heq|Hlt|Hgt].
  - destruct (Z.even (Qfloor y)); [lia|].
    assert (Qfloor y + 1 ≤ hi)%Z by (apply Hstep; lra). lia.
  - lia.
  - assert (Qfloor y + 1 ≤ hi)%Z by (apply Hstep; lra). lia.
Qed.

Lemma round_half_even_at_least (lo : Z) (y : Q) :
  inject_Z lo <= y → (lo ≤ Float.round_half_even y)%Z.
Proof.
  intros Hlo.
  apply (round_half_even_between lo (Qfloor y + 1) y); [done|].
  apply Qlt_le_weak, Qlt_floor.
Qed.

Lemma round_half_even_at_most (hi : Z) (y : Q) :
  y <= inject_Z hi → (Float.round_half_even y ≤ hi)%Z.
Proof.
  intros Hhi.
  apply (round_half_even_between (Qfloor y) hi y); [apply Qfloor_le | done].
Qed.

Lemma int_nonneg x : 0 <= x → Float.int x = Qfloor x.
Proof.
  intros H. unfold Float.int. destruct (Qlt_le_dec x 0) as [Hx|_]; [lra|done].
Qed.

End FloatFacts.

(** ** The forecaster *)

Section ForecastFacts.
Local Open Scope Q_scope.

Lemma tail_length {A} (n : nat) (xs : list A) :
  (n ≤ length xs)%nat → length (Series.tail n xs) = n.
Proof. intros H. unfold Series.tail. rewrite length_drop. lia. Qed.

Lemma tail_tail {A} (n : nat) (xs : list A) :
  (n ≤ length xs)%nat → Series.tail n (Series.tail n xs) = Series.tail n xs.
Proof.
  intros H. unfold Series.tail at 1. rewrite tail_length by done.
  by rewrite Nat.sub_diag.
Qed.

Lemma tail_app {A} (n : nat) (pre xs : list A) :
  (n ≤ length xs)%nat → Series.tail n (pre ++ xs) = Series.tail n xs.
Proof.
  intros H. unfold Series.tail. rewrite length_app.
  replace (length pre + length xs - n)%nat
    with (length pre + (length xs - n))%nat by lia.
  by rewrite drop_app_add.
Qed.

Lemma nonempty_of_length {A} (xs : list A) n :
  length xs = S n → xs ≠ [].
Proof. by destruct xs. Qed.

Lemma forecast_trace_short s :
  (length s < 6)%nat → forecast_trace s = Some (InsufficientHistory, 0).
Proof.
  intros H. unfold forecast_trace.
  by destruct (Nat.ltb_spec (length s) 6); [|lia].
Qed.

Lemma forecast_trace_idle s :
  (6 ≤ length s)%nat → Float.sum (Series.tail 6 s) == 0 →
  forecast_trace s = Some (Idle, 0).
Proof.
  intros H Hz. unfold forecast_trace.
  destruct (Nat.ltb_spec (length s) 6); [lia|].
  apply Qeq_bool_iff in Hz. by rewrite Hz.
Qed.

Lemma forecast_trace_projected s :
  (6 ≤ length s)%nat → ¬ Float.sum (Series.tail 6 s) == 0 →
  forecast_trace s = Some (Projected, projection (Series.tail 6 s)).
Proof.
  intros H Hnz. unfold forecast_trace.
  destruct (Nat.ltb_spec (length s) 6); [lia|].
  destruct (Qeq_bool (Float.sum (Series.tail 6 s)) 0) eqn:E.
  { apply Qeq_bool_iff in E. contradiction. }
  pose proof (tail_length 6 s H) as Hlen.
  rewrite (mean_Some (Series.tail 6 s)) by by eapply nonempty_of_length.
  rewrite (mean_Some (Series.head 3 _)).
  2:{ apply (nonempty_of_length _ 2). unfold Series.head.
      rewrite length_take. lia. }
  rewrite (mean_Some (Series.tail 3 _)).
  2:{ apply (nonempty_of_length _ 2). apply tail_length. lia. }
  reflexivity.
Qed.

Lemma forecast_trace_cases s :
  forecast_trace s = Some (InsufficientHistory, 0) ∨
  forecast_trace s = Some (Idle, 0) ∨
  forecast_trace s = Some (Projected, projection (Series.tail 6 s)).
Proof.
  destruct (Nat.lt_ge_cases (length s) 6) as [H|H].
  - left. by apply forecast_trace_short.
  - destruct (Qeq_dec (Float.sum (Series.tail 6 s)) 0) as [Hz|Hnz].
    + right; left. by apply forecast_trace_idle.
    + right; right. by apply forecast_trace_projected.
Qed.

Lemma projection_nonneg recent : 0 <= projection recent.
Proof.
  unfold projection. cbv zeta.
  pose proof (max0_nonneg (Spec.mean recent +
    (if Qlt_le_dec 0 (Spec.mean (Series.head 3 recent))
     then Spec.mean (Series.tail 3 recent) - Spec.mean (Series.head 3 recent)
     else 0) / 2)) as Hm.
  apply Qmult_le_0_compat; [exact Hm | lra].
Qed.



Lemma projection_spec s : projection (Series.tail 6 s) == Spec.forecast s.
Proof.
  unfold projection, Spec.forecast, Spec.baseline, Spec.trend. cbv zeta.
  rewrite max0_Qmax. apply Qmult_comm.
Qed.

End ForecastFacts.

Section ForecastClaims.
Local Open Scope Q_scope.

Lemma forecast_trace_tail s :
  (6 ≤ length s)%nat → forecast_trace (Series.tail 6 s) = forecast_trace s.
Proof.
  intros H. unfold forecast_trace.
  rewrite tail_length, tail_tail by done.
  by destruct (Nat.ltb_spec (length s) 6); [lia|].
Qed.

(** C3. For a series of at least 6 bins whose trailing 6 values do not sum
    to zero, the forecast is [6 * max(0, baseline + trend / 2)], with
    [baseline] the mean of the trailing 6 values and [trend] the mean of
    their last 3 minus the mean of their first 3 when the latter is
    positive, [0] otherwise; the bins [10,10,10,20,20,20] give [120]. *)
Theorem forecast_formula :
  (∀ s : list Q,
     (6 ≤ length s)%nat → ¬ Float.sum (Spec.trailing 6 s) == 0 →
     ∃ v, forecast_next_60s_simple s = Some v ∧ v == Spec.forecast s) ∧
  (∃ v, forecast_next_60s_simple [10; 10; 10; 20; 20; 20] = Some v ∧ v == 120).
Proof.
  split.
  - intros s H Hnz. exists (projection (Series.tail 6 s)). split.
    + unfold forecast_next_60s_simple.
      by rewrite forecast_trace_projected.
    + apply projection_spec.
  - eexists. split; [vm_compute; reflexivity | reflexivity].
Qed.

Lemma forecast_formula_witness :
  (6 ≤ length [4; 1; 2; 3; 4; 5; 6]%Q)%nat ∧
  ¬ Float.sum (Spec.trailing 6 [4; 1; 2; 3; 4; 5; 6]) == 0 ∧
  ∃ v, forecast_next_60s_simple [4; 1; 2; 3; 4; 5; 6] = Some v ∧
       v == Spec.forecast [4; 1; 2; 3; 4; 5; 6].
Proof.
  assert (Hlen : (6 ≤ length [4; 1; 2; 3; 4; 5; 6]%Q)%nat) by (simpl; lia).
  assert (Hnz : ¬ Float.sum (Spec.trailing 6 [4; 1; 2; 3; 4; 5; 6]) == 0).
  { intros H. vm_compute in H. discriminate. }
  split; [exact Hlen|]. split; [exact Hnz|].
  exact (proj1 forecast_formula _ Hlen Hnz).
Defined.

(** C4. The forecast of any series, negative values included, is a value
    greater than or equal to zero. *)
Theorem forecast_nonneg (s : list Q) :
  ∃ v, forecast_next_60s_simple s = Some v ∧ 0 <= v.
Proof.
  unfold forecast_next_60s_simple.
  destruct (forecast_trace_cases s) as [H|[H|H]]; rewrite H; simpl;
    eexists; (split; [reflexivity|]).
  - lra.
  - lra.
  - apply projection_nonneg.
Qed.

(** C5. The forecast is [0.0], and no error, for the empty series, for a
    series of fewer than 6 bins, and for a series whose trailing 6 values
    sum to zero.  The length guard decides first (the function leaves by
    its first [return] whatever the values are), and a zero sum leaves by
    the second [return], before any mean or trend is computed. *)
Theorem forecast_degenerate (s : list Q) :
  forecast_next_60s_simple [] = Some 0 ∧
  ((length s < 6)%nat →
     forecast_trace s = Some (InsufficientHistory, 0) ∧
     forecast_next_60s_simple s = Some 0) ∧
  ((6 ≤ length s)%nat → Float.sum (Series.tail 6 s) == 0 →
     forecast_trace s = Some (Idle, 0) ∧
     forecast_next_60s_simple s = Some 0).
Proof.
  split; [reflexivity|]. split.
  - intros H. unfold forecast_next_60s_simple.
    by rewrite forecast_trace_short.
  - intros H Hz. unfold forecast_next_60s_simple.
    by rewrite forecast_trace_idle.
Qed.

Lemma forecast_degenerate_witness :
  (forecast_trace [7; -7; 3] = Some (InsufficientHistory, 0) ∧
   forecast_next_60s_simple [7; -7; 3] = Some 0) ∧
  (forecast_trace [9; 3; 3; 3; -3; -3; -3] = Some (Idle, 0) ∧
   forecast_next_60s_simple [9; 3; 3; 3; -3; -3; -3] = Some 0).
Proof.
  split.
  - apply (proj1 (proj2 (forecast_degenerate [7; -7; 3]))). simpl. lia.
  - apply (proj2 (proj2 (forecast_degenerate [9; 3; 3; 3; -3; -3; -3]))).
    + simpl. lia.
    + reflexivity.
Defined.

(** C6. The accuracy evaluation is
    [abs(predicted - realized) / realized * 100] when [realized > 0] and
    exactly [0.0] otherwise, in particular at [realized = 0]; the division
    is never reached with a zero divisor. *)
Theorem mape_guard (predicted realized : Q) :
  (0 < realized →
     mape predicted realized =
       Some (Spec.relative_error_pct predicted realized)) ∧
  (¬ 0 < realized → mape predicted realized = Some 0) ∧
  mape predicted 0 = Some 0 ∧
  is_Some (mape predicted realized).
Proof.
  assert (Hpos : 0 < realized →
    mape predicted realized = Some (Spec.relative_error_pct predicted realized)).
  { intros H. unfold mape. destruct (Qlt_le_dec 0 realized) as [_|Hle]; [|lra].
    rewrite div_Some; [reflexivity|]. intros Hz. rewrite Hz in H. lra. }
  assert (Hneg : ¬ 0 < realized → mape predicted realized = Some 0).
  { intros H. unfold mape. by destruct (Qlt_le_dec 0 realized). }
  split; [exact Hpos|]. split; [exact Hneg|]. split; [reflexivity|].
  destruct (Qlt_le_dec 0 realized) as [H|H].
  - rewrite Hpos by done. by eexists.
  - rewrite Hneg by lra. by eexists.
Qed.

Lemma mape_guard_witness :
  mape 12 8 = Some (Spec.relative_error_pct 12 8) ∧ mape 12 (-8) = Some 0.
Proof.
  split.
  - apply (proj1 (mape_guard 12 8)). reflexivity.
  - apply (proj1 (proj2 (mape_guard 12 (-8)))). intros H. discriminate H.
Defined.

(** C10. The forecast reads only the trailing 6 bins: on a series of at
    least 6 bins it equals the forecast of those 6 bins alone, and bins put
    in front of such a series do not change it. *)
Theorem forecast_tail_only (s pre : list Q) :
  (6 ≤ length s)%nat →
  forecast_next_60s_simple s = forecast_next_60s_simple (Series.tail 6 s) ∧
  forecast_next_60s_simple (pre ++ s) = forecast_next_60s_simple s.
Proof.
  intros H. unfold forecast_next_60s_simple. split.
  - by rewrite forecast_trace_tail.
  - rewrite <- (forecast_trace_tail (pre ++ s)) by (rewrite length_app; lia).
    rewrite tail_app by done. by rewrite forecast_trace_tail.
Qed.

Lemma forecast_tail_only_witness :
  forecast_next_60s_simple [5; 1; 2; 3; 4; 5; 9] =
    forecast_next_60s_simple (Series.tail 6 [5; 1; 2; 3; 4; 5; 9]) ∧
  forecast_next_60s_simple ([100; 200] ++ [5; 1; 2; 3; 4; 5; 9]) =
    forecast_next_60s_simple [5; 1; 2; 3; 4; 5; 9].
Proof.
  apply (forecast_tail_only [5; 1; 2; 3; 4; 5; 9] [100; 200]). simpl. lia.
Defined.

End ForecastClaims.

(** ** Bounded buffers *)

Section BufferFacts.
Context {A : Type}.
Implicit Types (l : list A) (x : A) (k : nat).

Lemma keep_last_snoc k l x :
  (1 ≤ k)%nat →
  let kept := drop (length l - k) l ++ [x] in
  drop (length kept - k) kept = drop (length (l ++ [x]) - k) (l ++ [x]).
Proof.
  intros Hk kept. subst kept.
  rewrite !length_app, length_drop. simpl.
  destruct (Nat.le_gt_cases (length l) k) as [Hle|Hgt].
  - replace (length l - k)%nat with 0%nat by lia.
    by rewrite Nat.sub_0_r.
  - replace (length l - (length l - k) + 1 - k)%nat with 1%nat by lia.
    replace (length l + 1 - k)%nat with (length l - k + 1)%nat by lia.
    rewrite !drop_app_le by (rewrite ?length_drop; lia).
    by rewrite drop_drop.
Qed.

Lemma slice_last_drop k l :
  (1 ≤ k)%nat → Buffer.slice_last k l = drop (length l - k) l.
Proof.
  intros Hk. unfold Buffer.slice_last.
  by destruct (Nat.eqb_spec k 0); [lia|].
Qed.

Lemma append_keep_last_all k (appended : list A) :
  (1 ≤ k)%nat →
  foldl (Buffer.append_keep_last k) [] appended =
    drop (length appended - k) appended.
Proof.
  intros Hk. induction appended as [|x l IH] using rev_ind.
  - done.
  - rewrite foldl_snoc, IH. unfold Buffer.append_keep_last.
    rewrite slice_last_drop by done. by apply keep_last_snoc.
Qed.

Lemma deque_append_drop k l x :
  (1 ≤ k)%nat →
  Buffer.deque_append k (drop (length l - k) l) x =
    drop (length (l ++ [x]) - k) (l ++ [x]).
Proof.
  intros Hk. rewrite <- keep_last_snoc by done. cbv zeta.
  unfold Buffer.deque_append. cbv zeta.
  rewrite !length_app, !length_drop. simpl.
  destruct (Nat.ltb_spec k (length l - (length l - k) + 1)) as [Hlt|Hge].
  - by replace (length l - (length l - k) + 1 - k)%nat with 1%nat by lia.
  - by replace (length l - (length l - k) + 1 - k)%nat with 0%nat by lia.
Qed.

Lemma deque_extend_all k (appended : list A) :
  (1 ≤ k)%nat →
  Buffer.deque_extend k [] appended = drop (length appended - k) appended.
Proof.
  intros Hk. unfold Buffer.deque_extend.
  induction appended as [|x l IH] using rev_ind.
  - done.
  - rewrite foldl_snoc, IH. by apply deque_append_drop.
Qed.

(** C7. For a capacity [C >= 1], after the events [appended] have been
    appended one by one to the empty buffer, the buffer has
    [min(N, C)] entries, and they are the last [min(N, C)] appended events
    in insertion order; this holds for the sliced list of [app.py] and for
    the bounded deque of [forecast_dashboard.py]. *)
Theorem bounded_buffer (C : nat) (appended : list A) :
  (1 ≤ C)%nat →
  let N := length appended in
  let by_slice := foldl (Buffer.append_keep_last C) [] appended in
  let by_deque := Buffer.deque_extend C [] appended in
  (length by_slice = (N `min` C)%nat ∧
   by_slice = drop (N - N `min` C)%nat appended) ∧
  (length by_deque = (N `min` C)%nat ∧
   by_deque = drop (N - N `min` C)%nat appended).
Proof.
  intros HC N by_slice by_deque. subst by_slice by_deque.
  rewrite append_keep_last_all, deque_extend_all by done.
  replace (N - N `min` C)%nat with (length appended - C)%nat by (subst N; lia).
  rewrite length_drop. subst N. repeat split; lia.
Qed.

End BufferFacts.

Lemma bounded_buffer_witness :
  let appended :=
    (λ i : nat, Event (inject_Z (Z.of_nat i)) 1) <$> seq 0 150 in
  let last_100 :=
    (λ i : nat, Event (inject_Z (Z.of_nat i)) 1) <$> seq 50 100 in
  (1 ≤ 100)%nat ∧
  foldl (Buffer.append_keep_last 100) [] appended = last_100 ∧
  Buffer.deque_extend 100 [] appended = last_100.
Proof.
  intros appended last_100.
  assert (H100 : (1 ≤ 100)%nat) by lia.
  destruct (bounded_buffer 100 appended H100) as [[_ Hs] [_ Hd]].
  split; [exact H100|]. split.
  - rewrite Hs. reflexivity.
  - rewrite Hd. reflexivity.
Defined.

(** ** One run of the script *)

Section RunFacts.
Local Open Scope Q_scope.

Lemma buttons_frame inp st :
  events (buttons inp st) = events st ∧
  forecasts (buttons inp st) = forecasts st ∧
  last_forecast_time (buttons inp st) = last_forecast_time st.
Proof.
  unfold buttons. by destruct (pause_clicked inp), (resume_clicked inp).
Qed.

Lemma paused_generate inp st :
  should_run st = false → generate_events inp st = st.
Proof. intros H. unfold generate_events. by rewrite H. Qed.

Lemma paused_forecast_step inp st :
  should_run st = false → forecast_step inp st = Some st.
Proof. intros H. unfold forecast_step. by rewrite H. Qed.

(** While the script runs, a pass does ingest: the frame property below is
    not one of a pass that never changes anything. *)
Example running_pass_ingests :
  events <$> refresh_pass (RunInputs false false [Event 100 5] 100 20)
               (SessionState [Event 1 2] [(1, 3)] 90 true)
  = Some [Event 1 2; Event 100 5].
Proof. reflexivity. Qed.

(** C9. With the pause flag set (after the buttons have been read,
    [should_run] is false), a pass ingests nothing and leaves the state as
    it was: the event buffer, the forecast history and the time of the last
    forecast are the same before and after; the pass does not raise. *)
Theorem paused_pass_frame (inp : run_inputs) (st : session_state) :
  should_run (buttons inp st) = false →
  ∃ st', refresh_pass inp st = Some st' ∧
         events st' = events st ∧
         forecasts st' = forecasts st ∧
         last_forecast_time st' = last_forecast_time st ∧
         should_run st' = false.
Proof.
  intros Hpaused. exists (buttons inp st).
  unfold refresh_pass.
  rewrite paused_generate, paused_forecast_step by done.
  destruct (buttons_frame inp st) as (He & Hf & Ht).
  by repeat split.
Qed.

Lemma paused_pass_frame_witness :
  let inp := RunInputs false false [Event 100 5] 100 20 in
  let st := SessionState [Event 1 2] [(1, 3)] 0 false in
  should_run (buttons inp st) = false ∧
  ∃ st', refresh_pass inp st = Some st' ∧
         events st' = events st ∧
         forecasts st' = forecasts st ∧
         last_forecast_time st' = last_forecast_time st ∧
         should_run st' = false.
Proof.
  intros inp st.
  assert (H : should_run (buttons inp st) = false) by reflexivity.
  split; [exact H|]. exact (paused_pass_frame inp st H).
Defined.

End RunFacts.

(** ** The aggregation *)

Section AggregateFacts.
Local Open Scope Q_scope.

Lemma freq_10s_val : Time.freq_10s = 10000000000%Z.
Proof. reflexivity. Qed.

Lemma window_val : Time.Timedelta_minutes 10 = (60 * Time.freq_10s)%Z.
Proof. reflexivity. Qed.

Lemma full_index_eq now :
  Time.date_range (start_bin now) (end_bin now) Time.freq_10s =
    bin_start now <$> seq 0 61.
Proof.
  unfold Time.date_range, start_bin. rewrite window_val, freq_10s_val.
  destruct (Z.ltb_spec (end_bin now) (end_bin now - 60 * 10000000000)) as [H|_];
    [lia|].
  replace (end_bin now - (end_bin now - 60 * 10000000000))%Z
    with (60 * 10000000000)%Z by lia.
  rewrite Z.div_mul by lia. reflexivity.
Qed.

Lemma last_bin_start now : bin_start now 60 = end_bin now.
Proof.
  unfold bin_start, start_bin. rewrite window_val, freq_10s_val. lia.
Qed.

Lemma bin_start_lt now i j : (i < j)%nat → (bin_start now i < bin_start now j)%Z.
Proof. intros H. unfold bin_start. rewrite freq_10s_val. lia. Qed.

Lemma bin_start_inj now i j : bin_start now i = bin_start now j → i = j.
Proof. unfold bin_start. rewrite freq_10s_val. lia. Qed.

(** Rows whose labels already ascend are left as they are. *)
Lemma sort_index_ascending (row : nat → Z * Q) (a n : nat) :
  (∀ i, ((row i).1 ≤ (row (S i)).1)%Z) →
  Series.sort_index (row <$> seq a n) = row <$> seq a n.
Proof.
  intros Hasc. revert a. induction n as [|n IH]; intros a; [done|].
  change (Series.sort_index (row <$> seq a (S n)))
    with (Series.insert_row (row a) (Series.sort_index (row <$> seq (S a) n))).
  rewrite IH. destruct n as [|n]; [done|]. simpl.
  by destruct (Z.leb_spec (row a).1 (row (S a)).1) as [_|H];
    [|specialize (Hasc a); lia].
Qed.

(** The series returned for a non-empty buffer, bin by bin. *)
Lemma aggregate_rows evs now :
  evs ≠ [] →
  aggregate_to_10s_bins evs now =
    (λ i, (bin_start now i,
           default 0
             (Series.groupby_sum ((λ e, (bin_of e, price e)) <$> evs)
                !! bin_start now i))) <$> seq 0 61.
Proof.
  intros Hne. destruct evs as [|e evs]; [done|].
  unfold aggregate_to_10s_bins. rewrite full_index_eq.
  unfold Series.reindex. rewrite <- list_fmap_compose.
  apply sort_index_ascending. intros i. simpl.
  pose proof (bin_start_lt now i (S i)). lia.
Qed.

Lemma groupby_lookup_cons r rows k :
  Series.groupby_sum (r :: rows) !! k =
    if decide (r.1 = k)
    then Some (r.2 + default 0 (Series.groupby_sum rows !! k))
    else Series.groupby_sum rows !! k.
Proof.
  change (Series.groupby_sum (r :: rows))
    with (<[r.1 := r.2 + default 0 (Series.groupby_sum rows !! r.1)]>
            (Series.groupby_sum rows)).
  rewrite lookup_insert. destruct (decide (r.1 = k)) as [->|]; done.
Qed.

Lemma groupby_lookup_None rows k :
  (∀ r, r ∈ rows → r.1 ≠ k) → Series.groupby_sum rows !! k = None.
Proof.
  induction rows as [|r rows IH]; intros Hno; [done|].
  rewrite groupby_lookup_cons.
  destruct (decide (r.1 = k)) as [Heq|_].
  - exfalso. apply (Hno r); [left | done].
  - apply IH. intros r' Hr'. apply Hno. by right.
Qed.

Lemma groupby_lookup_total evs b :
  default 0 (Series.groupby_sum ((λ e, (bin_of e, price e)) <$> evs) !! b)
  == bin_total evs b.
Proof.
  unfold bin_total. induction evs as [|e evs IH]; [reflexivity|].
  rewrite fmap_cons, groupby_lookup_cons, filter_cons. simpl.
  destruct (decide (bin_of e = b)) as [Heq|Hne]; simpl.
  - rewrite IH. reflexivity.
  - exact IH.
Qed.

End AggregateFacts.

Section AggregateClaims.
Local Open Scope Q_scope.

Lemma aggregate_labels evs now :
  evs ≠ [] → (aggregate_to_10s_bins evs now).*1 = bin_start now <$> seq 0 61.
Proof.
  intros Hne. rewrite aggregate_rows by done.
  rewrite <- list_fmap_compose. by apply list_fmap_ext.
Qed.

Lemma aggregate_label_lookup evs now i b :
  evs ≠ [] →
  (aggregate_to_10s_bins evs now).*1 !! i = Some b →
  (i < 61)%nat ∧ b = bin_start now i.
Proof.
  intros Hne. rewrite aggregate_labels by done.
  rewrite list_lookup_fmap. intros H.
  destruct (seq 0 61 !! i) as [k|] eqn:Hk; [|done].
  apply lookup_seq in Hk as [-> Hlt]. simpl in H. by inversion H.
Qed.

Lemma aggregate_elem evs now b v :
  evs ≠ [] →
  (b, v) ∈ aggregate_to_10s_bins evs now →
  (∃ i, (i < 61)%nat ∧ b = bin_start now i) ∧
  v = default 0
        (Series.groupby_sum ((λ e, (bin_of e, price e)) <$> evs) !! b).
Proof.
  intros Hne. rewrite aggregate_rows by done.
  intros (i & Heq & Hi)%list_elem_of_fmap.
  apply elem_of_seq in Hi. inversion Heq; subst. split; [|done].
  exists i. split; [lia | done].
Qed.

(** C1. For a non-empty list of events and any [now], the aggregation
    returns [window / bin width + 1 = 61] bins; the [i]-th bin starts at
    [start_bin + i * 10s] (so bin starts are contiguous at the stride of one
    bin width, the last one being [end_bin]) and bin starts ascend strictly;
    a bin that no event falls into has the aggregate [0.0] exactly. *)
Theorem bucketing_complete (evs : list event) (now : Q) :
  evs ≠ [] →
  let bins := aggregate_to_10s_bins evs now in
  Z.of_nat (length bins) =
    (Time.Timedelta_minutes 10 `div` Time.freq_10s + 1)%Z ∧
  length bins = 61%nat ∧
  (∀ i, (i < 61)%nat →
        bins.*1 !! i = Some (start_bin now + Z.of_nat i * Time.freq_10s)%Z) ∧
  bins.*1 !! 60%nat = Some (end_bin now) ∧
  (∀ i j b b', (i < j)%nat →
        bins.*1 !! i = Some b → bins.*1 !! j = Some b' → (b < b')%Z) ∧
  (∀ b v, (b, v) ∈ bins → (∀ e, e ∈ evs → bin_of e ≠ b) → v = 0).
Proof.
  intros Hne bins.
  assert (Hlen : length bins = 61%nat).
  { subst bins. rewrite aggregate_rows by done. by rewrite length_fmap. }
  assert (Hlab : ∀ i, (i < 61)%nat → bins.*1 !! i = Some (bin_start now i)).
  { intros i Hi. subst bins. rewrite aggregate_labels by done.
    rewrite list_lookup_fmap, lookup_seq_lt by done. done. }
  split; [by rewrite Hlen|]. split; [exact Hlen|].
  split; [exact Hlab|]. split.
  { rewrite Hlab by lia. by rewrite last_bin_start. }
  split.
  - intros i j b b' Hij Hi Hj.
    apply aggregate_label_lookup in Hi as [_ ->]; [|done].
    apply aggregate_label_lookup in Hj as [_ ->]; [|done].
    by apply bin_start_lt.
  - intros b v Hin Hnone.
    apply aggregate_elem in Hin as [_ ->]; [|done].
    rewrite groupby_lookup_None; [done|].
    intros r (e & -> & He)%list_elem_of_fmap. simpl. by apply Hnone.
Qed.

Lemma bucketing_complete_witness :
  let evs := [Event 1700000003 25; Event 1700000004 40] in
  let bins := aggregate_to_10s_bins evs 1700000005 in
  evs ≠ [] ∧ length bins = 61%nat ∧
  bins.*1 !! 60%nat = Some (end_bin 1700000005).
Proof.
  intros evs bins.
  assert (Hne : evs ≠ []) by done.
  destruct (bucketing_complete evs 1700000005 Hne) as (_ & Hlen & _ & Hlast & _).
  split; [exact Hne|]. split; [exact Hlen | exact Hlast].
Defined.

End AggregateClaims.

(** ** Sums over the bins *)

Section SumFacts.
Local Open Scope Q_scope.
Context {A : Type}.
Implicit Types (f g : A → Q) (l : list A).

Lemma sum_fmap_ext f g l :
  (∀ x, x ∈ l → f x == g x) → Float.sum (f <$> l) == Float.sum (g <$> l).
Proof.
  induction l as [|x l IH]; intros Hfg; simpl; [reflexivity|].
  rewrite (Hfg x) by left. rewrite IH; [reflexivity|].
  intros y Hy. apply Hfg. by right.
Qed.

Lemma sum_fmap_plus f g l :
  Float.sum ((λ x, f x + g x) <$> l) == Float.sum (f <$> l) + Float.sum (g <$> l).
Proof.
  induction l as [|x l IH]; [simpl; lra|].
  rewrite !fmap_cons, !sum_cons, IH. lra.
Qed.

Lemma sum_fmap_zero l : Float.sum ((λ _, 0) <$> l) == 0.
Proof.
  induction l as [|x l IH]; [reflexivity|].
  rewrite fmap_cons, sum_cons, IH. lra.
Qed.

End SumFacts.

Section BinSums.
Local Open Scope Q_scope.

Lemma sum_indicator (k : Z) (p : Q) (idx : list Z) :
  NoDup idx →
  Float.sum ((λ b, if decide (k = b) then p else 0) <$> idx)
  == if decide (k ∈ idx) then p else 0.
Proof.
  induction 1 as [|b idx Hnotin Hnd IH].
  - destruct (decide (k ∈ [])) as [H|_]; [by apply elem_of_nil in H | reflexivity].
  - rewrite fmap_cons, sum_cons, IH. destruct (decide (k = b)) as [->|Hne].
    + destruct (decide (b ∈ idx)) as [H|_]; [done|].
      destruct (decide (b ∈ b :: idx)) as [_|H]; [lra|].
      exfalso. apply H. left.
    + destruct (decide (k ∈ idx)) as [Hin|Hout].
      * destruct (decide (k ∈ b :: idx)) as [_|H]; [lra|].
        exfalso. apply H. by right.
      * destruct (decide (k ∈ b :: idx)) as [H|_]; [|lra].
        apply elem_of_cons in H as [?|?]; done.
Qed.

Lemma bin_total_cons e evs b :
  bin_total (e :: evs) b
  == (if decide (bin_of e = b) then price e else 0) + bin_total evs b.
Proof.
  unfold bin_total. rewrite filter_cons.
  destruct (decide (bin_of e = b)).
  - by rewrite fmap_cons, sum_cons.
  - lra.
Qed.

(** Over labels without repetition, the bin totals add up to the prices of
    the events whose bin is one of the labels: an event is counted once. *)
Lemma sum_bin_totals (idx : list Z) (evs : list event) :
  NoDup idx →
  Float.sum (bin_total evs <$> idx)
  == Float.sum (price <$> filter (λ e, bin_of e ∈ idx) evs).
Proof.
  intros Hnd. induction evs as [|e evs IH].
  - simpl. apply (sum_fmap_zero idx).
  - rewrite (sum_fmap_ext _ _ idx (λ b _, bin_total_cons e evs b)).
    rewrite (sum_fmap_plus
               (λ b, if decide (bin_of e = b) then price e else 0)
               (bin_total evs) idx).
    rewrite sum_indicator, IH by done. rewrite filter_cons.
    destruct (decide (bin_of e ∈ idx)); [|lra].
    by rewrite fmap_cons, sum_cons.
Qed.

Lemma full_index_NoDup now : NoDup (bin_start now <$> seq 0 61).
Proof.
  apply NoDup_fmap_2; [|apply NoDup_seq].
  intros i j. apply bin_start_inj.
Qed.

(** An event's bin is one of the 61 labels exactly when its time lies in
    the window [[start_bin, end_bin + 10s)]. *)
Lemma bin_in_index now e :
  bin_of e ∈ bin_start now <$> seq 0 61 ↔ in_bins_window now e.
Proof.
  unfold in_bins_window. rewrite list_elem_of_fmap.
  unfold bin_of, bin_start, start_bin, end_bin, Time.floor.
  rewrite window_val, freq_10s_val.
  set (t := Time.to_datetime_s (timestamp e)).
  set (T := Time.Timestamp now).
  split.
  - intros (i & Heq & Hi). apply elem_of_seq in Hi.
    revert Heq. Z.div_mod_to_equations. lia.
  - intros [Hlo Hhi].
    exists (Z.to_nat (t `div` 10000000000 - (T `div` 10000000000 - 60))).
    split.
    + revert Hlo Hhi. Z.div_mod_to_equations. lia.
    + apply elem_of_seq. revert Hlo Hhi. Z.div_mod_to_equations. lia.
Qed.

End BinSums.

Section BucketingSum.
Local Open Scope Q_scope.

Lemma aggregate_values evs now :
  evs ≠ [] →
  (aggregate_to_10s_bins evs now).*2 =
    (λ b, default 0
            (Series.groupby_sum ((λ e, (bin_of e, price e)) <$> evs) !! b))
      <$> (bin_start now <$> seq 0 61).
Proof.
  intros Hne. rewrite aggregate_rows by done.
  rewrite <- !list_fmap_compose. by apply list_fmap_ext.
Qed.

(** [pd.Timestamp(x)] of a float reads nanoseconds while the events go
    through [to_datetime(unit="s")]: at a present-day clock value the
    window ends at the epoch, and the events of the last seconds are in
    bins far after it. *)
Remark clock_read_in_nanoseconds :
  end_bin 1700000005 = 0%Z ∧
  bin_of (Event 1700000003 25) = (1700000000 * Time.ns_per_s)%Z.
Proof. split; reflexivity. Qed.

(** The returned bins include the one that starts at [end_bin]: an event
    at time 0, when the clock value is 0 (where seconds and nanoseconds
    agree), is summed, though it lies outside the half-open interval
    [[start_bin, end_bin)]. *)
Remark last_bin_is_summed :
  Float.sum (aggregate_to_10s_bins [Event 0 5] 0).*2 == 5 ∧
  Spec.window_total 0 [Event 0 5] == 0.
Proof. split; vm_compute; reflexivity. Qed.

(** C2. At a present-day clock value the code does not return the sum the
    claim states.  With two events, priced 25 and 40, stamped seven and six
    seconds before the [end_bin] of the claim (1700000000 s for the clock
    value 1700000005 s), the claim asks for 65; the code, which reads the
    clock value as nanoseconds, ends its window at the epoch, returns its
    61 bins without raising, and they add up to 0. *)
Theorem bucketing_sum_clock_in_seconds :
  let evs := [Event 1699999993 25; Event 1699999994 40] in
  Spec.end_bin 1700000005 == 1700000000 ∧
  Spec.window_total 1700000005 evs == 65 ∧
  end_bin 1700000005 = 0%Z ∧
  aggregate_to_10s_bins_checked evs 1700000005
    = Some (aggregate_to_10s_bins evs 1700000005) ∧
  Float.sum (aggregate_to_10s_bins evs 1700000005).*2 == 0.
Proof.
  intros evs. split; [vm_compute; reflexivity|].
  split; [vm_compute; reflexivity|]. split; [reflexivity|].
  split; [vm_compute; reflexivity | vm_compute; reflexivity].
Qed.

End BucketingSum.

(** * Further properties of the code *)

(** ** The forecaster in closed form *)

Section ForecastClosedForm.
Local Open Scope Q_scope.






End ForecastClosedForm.

Section ForecastShape.
Local Open Scope Q_scope.



End ForecastShape.

(** ** The aggregation: what goes into the bins *)

Section AggregateContents.
Local Open Scope Q_scope.

Lemma sum_nonneg (xs : list Q) : (∀ x, x ∈ xs → 0 <= x) → 0 <= Float.sum xs.
Proof.
  induction xs as [|x xs IH]; intros H; [simpl; lra|].
  rewrite sum_cons.
  assert (0 <= x) by (apply H; left).
  assert (0 <= Float.sum xs) by (apply IH; intros y Hy; apply H; by right).
  lra.
Qed.

Lemma aggregate_length evs now :
  evs ≠ [] → length (aggregate_to_10s_bins evs now).*2 = 61%nat.
Proof.
  intros Hne. rewrite aggregate_rows by done. by rewrite !length_fmap.
Qed.

(** The values of a non-empty buffer none of whose events is in the
    window. *)
Lemma aggregate_all_outside evs now :
  evs ≠ [] → (∀ e, e ∈ evs → ¬ in_bins_window now e) →
  (aggregate_to_10s_bins evs now).*2 = replicate 61 0.
Proof.
  intros Hne Hout. rewrite aggregate_values by done.
  rewrite (const_fmap _ _ 0); [by rewrite length_fmap|].
  intros i b Hb. rewrite groupby_lookup_None; [done|].
  intros r (e & -> & He)%list_elem_of_fmap. simpl. intros Heq.
  apply (Hout e He). apply bin_in_index. rewrite Heq.
  by eapply list_elem_of_lookup_2.
Qed.

(** X5. The forecast of an aggregated buffer leaves by the
    insufficient-history return exactly when the buffer is empty: a
    non-empty buffer always yields the 61 bins the forecaster needs. *)
Theorem forecast_of_aggregate (evs : list event) (now : Q) :
  (evs = [] →
     forecast_trace (aggregate_to_10s_bins evs now).*2
       = Some (InsufficientHistory, 0)) ∧
  (evs ≠ [] →
     ∃ site v,
       forecast_trace (aggregate_to_10s_bins evs now).*2 = Some (site, v) ∧
       site ≠ InsufficientHistory).
Proof.
  split.
  - by intros ->.
  - intros Hne. pose proof (aggregate_length evs now Hne) as Hlen.
    set (s := (aggregate_to_10s_bins evs now).*2) in *.
    destruct (Qeq_dec (Float.sum (Series.tail 6 s)) 0) as [Hz|Hnz].
    + exists Idle, 0. by rewrite forecast_trace_idle by (done || lia).
    + exists Projected, (projection (Series.tail 6 s)).
      by rewrite forecast_trace_projected by (done || lia).
Qed.

Lemma forecast_of_aggregate_witness :
  ∃ site v,
    forecast_trace (aggregate_to_10s_bins [Event 0 5] 0).*2 = Some (site, v) ∧
    site ≠ InsufficientHistory.
Proof. by apply (proj2 (forecast_of_aggregate [Event 0 5] 0)). Defined.

(** X7. When no event has a negative price, no bin has a negative
    aggregate. *)
Theorem aggregate_nonneg (evs : list event) (now : Q) :
  (∀ e, e ∈ evs → 0 <= price e) →
  ∀ b v, (b, v) ∈ aggregate_to_10s_bins evs now → 0 <= v.
Proof.
  intros Hpos b v Hin. destruct (decide (evs = [])) as [->|Hne].
  { by apply elem_of_nil in Hin. }
  apply aggregate_elem in Hin as [_ ->]; [|done].
  rewrite groupby_lookup_total. unfold bin_total. apply sum_nonneg.
  intros x (e & -> & He)%list_elem_of_fmap.
  apply Hpos. by apply list_elem_of_filter in He as [_ He].
Qed.

Lemma aggregate_nonneg_witness :
  aggregate_to_10s_bins [Event 0 5; Event (-7) 2] 0 !! 59%nat
    = Some ((-10000000000)%Z, 2) ∧
  0 <= 2.
Proof.
  assert (Hrow : aggregate_to_10s_bins [Event 0 5; Event (-7) 2] 0 !! 59%nat
                 = Some ((-10000000000)%Z, 2)) by (vm_compute; reflexivity).
  split; [exact Hrow|].
  apply (aggregate_nonneg [Event 0 5; Event (-7) 2] 0) with (-10000000000)%Z.
  - intros e He.
    repeat (apply elem_of_cons in He as [->|He]; [discriminate|]).
    by apply elem_of_nil in He.
  - by eapply list_elem_of_lookup_2.
Defined.

(** X8. The aggregation returns no bins exactly when the buffer is
    empty.  A non-empty buffer none of whose events has its time, rounded
    to the nanosecond, in [[start_bin, end_bin + 10 s)] still gives the 61
    bins, every one of them [0.0], and the forecast then leaves by the
    zero-sum return with [0.0]. *)
Theorem outside_window_idle (evs : list event) (now : Q) :
  (aggregate_to_10s_bins evs now = [] ↔ evs = []) ∧
  (evs ≠ [] →
   (∀ e, e ∈ evs → ¬ in_bins_window now e) →
   (aggregate_to_10s_bins evs now).*2 = replicate 61 0 ∧
   forecast_trace (aggregate_to_10s_bins evs now).*2 = Some (Idle, 0)).
Proof.
  split.
  - split; [|by intros ->].
    intros Hnil. destruct (decide (evs = [])) as [|Hne]; [done|].
    pose proof (aggregate_length evs now Hne) as Hlen.
    rewrite Hnil in Hlen. discriminate Hlen.
  - intros Hne Hout. rewrite aggregate_all_outside by done. by split.
Qed.

Lemma outside_window_idle_witness :
  (aggregate_to_10s_bins [Event 25 5] 0).*2 = replicate 61 0 ∧
  forecast_trace (aggregate_to_10s_bins [Event 25 5] 0).*2 = Some (Idle, 0).
Proof.
  apply (proj2 (outside_window_idle [Event 25 5] 0)); [done|].
  intros e He. apply list_elem_of_singleton in He as ->.
  intros [_ H]. vm_compute in H. discriminate H.
Defined.

End AggregateContents.

(** ** The clock value and the window *)

Section ClockUnit.
Local Open Scope Q_scope.

Lemma end_bin_before_10e10 now :
  0 <= now → now < 10000000000 → end_bin now = 0%Z.
Proof.
  intros Hlo Hhi. unfold end_bin, Time.floor, Time.Timestamp.
  rewrite freq_10s_val, int_nonneg by done.
  assert (0 ≤ Qfloor now)%Z as H0.
  { change 0%Z with (Qfloor 0). by apply Qfloor_resp_le. }
  assert (Qfloor now < 10000000000)%Z as H1.
  { rewrite (Zlt_Qlt (Qfloor now) 10000000000).
    eapply Qle_lt_trans; [apply Qfloor_le | exact Hhi]. }
  rewrite Z.div_small by lia. reflexivity.
Qed.

Lemma to_datetime_from_10s ts :
  10 <= ts → (10000000000 ≤ Time.to_datetime_s ts)%Z.
Proof.
  intros H. unfold Time.to_datetime_s.
  apply round_half_even_at_least.
  change (inject_Z 10000000000) with (10 * inject_Z Time.ns_per_s).
  apply Qmult_le_compat_r; [exact H | discriminate].
Qed.

(** X9. The clock value passed as [last_timestamp] is a count of seconds,
    which [pd.Timestamp] reads as nanoseconds: for every clock value from 0
    up to [1e10] the window ends at the epoch, so a non-empty buffer whose
    events are all stamped 10 seconds after the epoch or later gives 61
    zero bins and the forecast [0.0]. *)
Theorem seconds_clock_forecasts_zero (evs : list event) (now : Q) :
  evs ≠ [] →
  0 <= now → now < 10000000000 →
  (∀ e, e ∈ evs → 10 <= timestamp e) →
  end_bin now = 0%Z ∧
  (aggregate_to_10s_bins evs now).*2 = replicate 61 0 ∧
  forecast_next_60s_simple (aggregate_to_10s_bins evs now).*2 = Some 0.
Proof.
  intros Hne Hlo Hhi Hlate.
  pose proof (end_bin_before_10e10 now Hlo Hhi) as Hend.
  split; [exact Hend|].
  rewrite aggregate_all_outside; [by split | done |].
  intros e He [_ Hwin]. rewrite Hend, freq_10s_val in Hwin.
  pose proof (to_datetime_from_10s (timestamp e) (Hlate e He)). lia.
Qed.

Lemma seconds_clock_forecasts_zero_witness :
  let evs := [Event 1700000003 25; Event 1700000004 40] in
  end_bin 1700000005 = 0%Z ∧
  (aggregate_to_10s_bins evs 1700000005).*2 = replicate 61 0 ∧
  forecast_next_60s_simple (aggregate_to_10s_bins evs 1700000005).*2 = Some 0.
Proof.
  intros evs.
  apply (seconds_clock_forecasts_zero evs 1700000005); [done | done | done |].
  intros e He.
  repeat (apply elem_of_cons in He as [->|He]; [discriminate|]).
  by apply elem_of_nil in He.
Defined.

End ClockUnit.

(** ** The state across runs *)

Section DequeBatches.
Context {A : Type}.
Implicit Types (d xs : list A) (k : nat).

Lemma deque_extend_last k d xs :
  (1 ≤ k)%nat → (length d ≤ k)%nat →
  Buffer.deque_extend k d xs = drop (length (d ++ xs) - k) (d ++ xs).
Proof.
  intros Hk Hd. unfold Buffer.deque_extend.
  induction xs as [|x xs IH] using rev_ind.
  - rewrite app_nil_r. simpl.
    by replace (length d - k)%nat with 0%nat by lia.
  - rewrite foldl_snoc, IH, app_assoc. by apply deque_append_drop.
Qed.

(** X10. Extending a bounded deque that holds at most [maxlen] items with
    a batch leaves the last [maxlen] items of the old contents followed by
    the batch, in order, and never more than [maxlen] items. *)
Theorem deque_extend_keeps_last (maxlen : nat) (d xs : list A) :
  (1 ≤ maxlen)%nat → (length d ≤ maxlen)%nat →
  Buffer.deque_extend maxlen d xs
    = drop (length (d ++ xs) - maxlen) (d ++ xs) ∧
  length (Buffer.deque_extend maxlen d xs)
    = (length (d ++ xs) `min` maxlen)%nat.
Proof.
  intros Hk Hd. rewrite deque_extend_last by done.
  split; [done|]. rewrite length_drop. lia.
Qed.

End DequeBatches.

Lemma deque_extend_keeps_last_witness :
  Buffer.deque_extend 3 [1; 2; 3]%nat [4; 5]%nat = [3; 4; 5]%nat ∧
  length (Buffer.deque_extend 3 [1; 2; 3]%nat [4; 5]%nat) = 3%nat.
Proof.
  apply (deque_extend_keeps_last 3 [1; 2; 3]%nat [4; 5]%nat); simpl; lia.
Defined.

Section PassFacts.
Local Open Scope Q_scope.

Lemma forecast_value s : ∃ v, forecast_next_60s_simple s = Some v ∧ 0 <= v.
Proof.
  unfold forecast_next_60s_simple.
  destruct (forecast_trace_cases s) as [H|[H|H]]; rewrite H; simpl;
    eexists; (split; [reflexivity|]); [lra | lra | apply projection_nonneg].
Qed.

(** What [forecast_step] does: nothing when paused or not yet due,
    otherwise it records one forecast, drops the oldest record when the
    history has grown past 20, and notes the time. *)
Lemma forecast_step_cases inp st :
  (should_run st &&
     Qle_bool (forecast_every inp) (current_time inp - last_forecast_time st)
     = false ∧
   forecast_step inp st = Some st) ∨
  (should_run st = true ∧
   forecast_every inp <= current_time inp - last_forecast_time st ∧
   ∃ v, forecast_next_60s_simple
          (aggregate_to_10s_bins (events st) (current_time inp)).*2 = Some v ∧
        0 <= v ∧
        let appended := forecasts st ++ [(current_time inp, v)] in
        forecast_step inp st =
          Some {| events := events st;
                  forecasts := if (20 <? length appended)%nat
                               then drop 1 appended else appended;
                  last_forecast_time := current_time inp;
                  should_run := should_run st |}).
Proof.
  unfold forecast_step.
  destruct (should_run st &&
            Qle_bool (forecast_every inp)
              (current_time inp - last_forecast_time st)) eqn:E.
  - right. apply andb_true_iff in E as [Hrun Hdue].
    apply Qle_bool_iff in Hdue. split; [done|]. split; [done|].
    destruct (forecast_value
                (aggregate_to_10s_bins (events st) (current_time inp)).*2)
      as (v & Hv & Hpos).
    exists v. split; [done|]. split; [done|]. rewrite Hv. simpl.
    destruct (20 <? length (forecasts st ++ [(current_time inp, v)]))%nat;
      [|done].
    by destruct (forecasts st).
  - by left.
Qed.

Lemma forecast_step_events inp st :
  ∃ st', forecast_step inp st = Some st' ∧
         events st' = events st ∧ should_run st' = should_run st.
Proof.
  destruct (forecast_step_cases inp st) as [[_ H]|(_ & _ & v & _ & _ & H)];
    rewrite H; by eexists.
Qed.

Lemma generate_events_bound inp st :
  (length (events st) ≤ 1000)%nat →
  (length (events (generate_events inp st)) ≤ 1000)%nat ∧
  forecasts (generate_events inp st) = forecasts st ∧
  last_forecast_time (generate_events inp st) = last_forecast_time st.
Proof.
  intros H. unfold generate_events. destruct (should_run st); [|done].
  simpl. rewrite deque_extend_last by (done || lia).
  rewrite length_drop. split; [lia | done].
Qed.

Lemma refresh_pass_bounds inp st :
  (length (events st) ≤ 1000)%nat → (length (forecasts st) ≤ 20)%nat →
  ∃ st', refresh_pass inp st = Some st' ∧
         (length (events st') ≤ 1000)%nat ∧
         (length (forecasts st') ≤ 20)%nat.
Proof.
  intros He Hf. unfold refresh_pass.
  destruct (buttons_frame inp st) as (Hbe & Hbf & _).
  destruct (generate_events_bound inp (buttons inp st)) as (Hge & Hgf & _);
    [by rewrite Hbe|].
  set (st1 := generate_events inp (buttons inp st)) in *.
  assert (Hf1 : (length (forecasts st1) ≤ 20)%nat) by by rewrite Hgf, Hbf.
  destruct (forecast_step_cases inp st1) as [[_ H]|(_ & _ & v & _ & _ & H)];
    rewrite H; eexists; (split; [reflexivity|]); simpl; [done|].
  split; [done|].
  destruct (Nat.ltb_spec 20 (length (forecasts st1 ++ [(current_time inp, v)])))
    as [Hlt|Hge'].
  - rewrite length_drop, length_app. simpl. lia.
  - done.
Qed.

End PassFacts.

(** ** Timestamps pandas cannot hold *)

Section RangeFacts.
Local Open Scope Q_scope.

Lemma check_Some t :
  (Time.min_ns ≤ t ≤ Time.max_ns)%Z → Time.check t = Some t.
Proof.
  intros [Hlo Hhi]. unfold Time.check.
  apply Z.leb_le in Hlo, Hhi. by rewrite Hlo, Hhi.
Qed.

Lemma check_inv t t' : Time.check t = Some t' → t' = t.
Proof.
  unfold Time.check. destruct (_ && _); [|done]. by intros [= <-].
Qed.

Lemma int_between (lo hi : Z) (x : Q) :
  inject_Z lo <= x → x <= inject_Z hi → (lo ≤ Float.int x ≤ hi)%Z.
Proof.
  intros Hlo Hhi. unfold Float.int. destruct (Qlt_le_dec x 0); split.
  - rewrite <- (Qceiling_Z lo). by apply Qceiling_resp_le.
  - rewrite <- (Qceiling_Z hi). by apply Qceiling_resp_le.
  - rewrite <- (Qfloor_Z lo). by apply Qfloor_resp_le.
  - rewrite <- (Qfloor_Z hi). by apply Qfloor_resp_le.
Qed.

Lemma event_time_checked e :
  event_in_range e →
  (t ← Time.check (Time.to_datetime_s (timestamp e));
   Time.check (Time.floor Time.freq_10s t)) = Some (bin_of e).
Proof.
  intros [Hlo Hhi].
  assert (Ht : (-9223372030000000000 ≤ Time.to_datetime_s (timestamp e)
                ≤ 9223372030000000000)%Z).
  { unfold Time.to_datetime_s. apply round_half_even_between.
    - change (inject_Z (-9223372030000000000))
        with (-9223372030 * inject_Z Time.ns_per_s).
      apply Qmult_le_compat_r; [exact Hlo | discriminate].
    - change (inject_Z 9223372030000000000)
        with (9223372030 * inject_Z Time.ns_per_s).
      apply Qmult_le_compat_r; [exact Hhi | discriminate]. }
  rewrite check_Some by (unfold Time.min_ns, Time.max_ns; lia). simpl.
  unfold bin_of. apply check_Some.
  unfold Time.floor, Time.min_ns, Time.max_ns. rewrite freq_10s_val.
  revert Ht. generalize (Time.to_datetime_s (timestamp e)). intros t Ht.
  Z.div_mod_to_equations. lia.
Qed.

Lemma timestamps_checked_in_range evs now :
  Forall event_in_range evs → clock_in_range now →
  timestamps_checked evs now = Some ().
Proof.
  intros Hevs [Hlo Hhi]. unfold timestamps_checked.
  rewrite (mapM_Some_2 _ evs (bin_of <$> evs)).
  2:{ apply Forall2_fmap_r, Forall_Forall2_diag.
      eapply Forall_impl; [exact Hevs|]. intros e He.
      by apply event_time_checked. }
  simpl.
  pose proof (int_between (-9223371430000000000) 9223372036854775807 now
                Hlo Hhi) as Hts.
  unfold Time.Timestamp.
  rewrite check_Some by (unfold Time.min_ns, Time.max_ns; lia). simpl.
  assert (Hend : (-9223371430000000000
                  ≤ Time.floor Time.freq_10s (Float.int now)
                  ≤ 9223372036854775807)%Z).
  { unfold Time.floor. rewrite freq_10s_val. revert Hts.
    generalize (Float.int now). intros t Ht.
    Z.div_mod_to_equations. lia. }
  rewrite check_Some by (unfold Time.min_ns, Time.max_ns; lia). simpl.
  rewrite check_Some; [done|].
  rewrite window_val, freq_10s_val in *. unfold Time.min_ns, Time.max_ns. lia.
Qed.

Lemma aggregate_checked_sound evs now bins :
  aggregate_to_10s_bins_checked evs now = Some bins →
  bins = aggregate_to_10s_bins evs now.
Proof.
  unfold aggregate_to_10s_bins_checked. destruct evs as [|e evs].
  - by intros [= <-].
  - destruct (timestamps_checked (e :: evs) now); simpl; [|done].
    by intros [= <-].
Qed.

Lemma aggregate_checked_in_range evs now :
  Forall event_in_range evs → clock_in_range now →
  aggregate_to_10s_bins_checked evs now
    = Some (aggregate_to_10s_bins evs now).
Proof.
  intros Hevs Hnow. unfold aggregate_to_10s_bins_checked.
  destruct evs as [|e evs]; [done|].
  by rewrite timestamps_checked_in_range.
Qed.

(** What [forecast_step_checked] did when it returned. *)
Lemma forecast_step_checked_cases inp st st' :
  forecast_step_checked inp st = Some st' →
  (should_run st &&
     Qle_bool (forecast_every inp) (current_time inp - last_forecast_time st)
     = false ∧ st' = st) ∨
  (should_run st = true ∧
   forecast_every inp <= current_time inp - last_forecast_time st ∧
   ∃ bins v,
     aggregate_to_10s_bins_checked (events st) (current_time inp) = Some bins ∧
     forecast_next_60s_simple bins.*2 = Some v ∧
     0 <= v ∧
     let appended := forecasts st ++ [(current_time inp, v)] in
     st' = {| events := events st;
              forecasts := if (20 <? length appended)%nat
                           then drop 1 appended else appended;
              last_forecast_time := current_time inp;
              should_run := should_run st |}).
Proof.
  unfold forecast_step_checked.
  destruct (should_run st &&
            Qle_bool (forecast_every inp)
              (current_time inp - last_forecast_time st)) eqn:E.
  - intros H. right. apply andb_true_iff in E as [Hrun Hdue].
    apply Qle_bool_iff in Hdue. split; [done|]. split; [done|].
    destruct (aggregate_to_10s_bins_checked (events st) (current_time inp))
      as [bins|]; [|done].
    simpl in H. destruct (forecast_value bins.*2) as (v & Hv & Hpos).
    exists bins, v. split; [done|]. split; [done|]. split; [done|].
    rewrite Hv in H. simpl in H. cbv zeta.
    destruct (20 <? length (forecasts st ++ [(current_time inp, v)]))%nat.
    + destruct (forecasts st) as [|r rest]; simpl in H |- *;
        by injection H as <-.
    + simpl in H. by injection H as <-.
  - intros [= <-]. by left.
Qed.

Lemma forecast_step_checked_in_range inp st :
  Forall event_in_range (events st) → clock_in_range (current_time inp) →
  is_Some (forecast_step_checked inp st).
Proof.
  intros Hevs Hnow. unfold forecast_step_checked.
  destruct (should_run st && Qle_bool _ _); [|by eexists].
  rewrite aggregate_checked_in_range by done. simpl.
  destruct (forecast_value
              (aggregate_to_10s_bins (events st) (current_time inp)).*2)
    as (v & -> & _).
  simpl.
  destruct (20 <? length (forecasts st ++ [(current_time inp, v)]))%nat;
    [|by eexists].
  destruct (forecasts st); by eexists.
Qed.

Lemma deque_extend_Forall {A} (P : A → Prop) k (d xs : list A) :
  Forall P d → Forall P xs → Forall P (Buffer.deque_extend k d xs).
Proof.
  unfold Buffer.deque_extend. revert d.
  induction xs as [|x xs IH]; intros d Hd Hxs; [done|].
  apply Forall_cons in Hxs as [Hx Hxs]. simpl. apply IH; [|done].
  unfold Buffer.deque_append.
  assert (Forall P (d ++ [x])) by (apply Forall_app; auto).
  destruct (k <? length (d ++ [x]))%nat; [by apply Forall_drop | done].
Qed.

Lemma generate_events_in_range inp st :
  Forall event_in_range (events st) →
  Forall event_in_range (new_events inp) →
  Forall event_in_range (events (generate_events inp (buttons inp st))).
Proof.
  intros Hst Hnew. destruct (buttons_frame inp st) as (Hbe & _ & _).
  unfold generate_events. destruct (should_run (buttons inp st)); simpl.
  - rewrite Hbe. by apply deque_extend_Forall.
  - by rewrite Hbe.
Qed.

(** A run that completes returns what the run without the range checks
    returns. *)
Lemma refresh_pass_checked_sound inp st st' :
  refresh_pass_checked inp st = Some st' → refresh_pass inp st = Some st'.
Proof.
  unfold refresh_pass_checked, refresh_pass, forecast_step_checked,
    forecast_step.
  set (st1 := generate_events inp (buttons inp st)).
  destruct (should_run st1 && Qle_bool _ _); [|done].
  destruct (aggregate_to_10s_bins_checked (events st1) (current_time inp))
    as [bins|] eqn:Hb; [|done].
  apply aggregate_checked_sound in Hb. by rewrite Hb.
Qed.

Lemma refresh_pass_checked_bounds inp st st' :
  refresh_pass_checked inp st = Some st' →
  (length (events st) ≤ 1000)%nat → (length (forecasts st) ≤ 20)%nat →
  (length (events st') ≤ 1000)%nat ∧ (length (forecasts st') ≤ 20)%nat.
Proof.
  unfold refresh_pass_checked. intros Hp He Hf.
  destruct (buttons_frame inp st) as (Hbe & Hbf & _).
  destruct (generate_events_bound inp (buttons inp st)) as (Hge & Hgf & _);
    [by rewrite Hbe|].
  set (st1 := generate_events inp (buttons inp st)) in *.
  assert (Hf1 : (length (forecasts st1) ≤ 20)%nat) by by rewrite Hgf, Hbf.
  apply forecast_step_checked_cases in Hp
    as [[_ ->]|(_ & _ & bins & v & _ & _ & _ & ->)]; [done|].
  simpl. split; [done|].
  destruct (Nat.ltb_spec 20 (length (forecasts st1 ++ [(current_time inp, v)])))
    as [Hlt|Hge']; [|done].
  rewrite length_drop, length_app. simpl. lia.
Qed.

Lemma refresh_pass_checked_in_range inp st :
  Forall event_in_range (events st) →
  Forall event_in_range (new_events inp) →
  clock_in_range (current_time inp) →
  ∃ st', refresh_pass_checked inp st = Some st' ∧
         Forall event_in_range (events st').
Proof.
  intros Hst Hnew Hnow.
  pose proof (generate_events_in_range inp st Hst Hnew) as H1.
  unfold refresh_pass_checked.
  destruct (forecast_step_checked_in_range inp _ H1 Hnow) as [st' Hst'].
  exists st'. split; [done|].
  apply forecast_step_checked_cases in Hst'
    as [[_ ->]|(_ & _ & bins & v & _ & _ & _ & ->)]; done.
Qed.




(** X11. From the initial state, a sequence of runs that completes,
    whatever the buttons, clock values and batches, keeps the event buffer
    at 1000 entries or fewer and the forecast history at 20 records or
    fewer; and it does complete when every batch holds events stamped
    within [9223372030] seconds of the epoch and every clock value lies
    from [-9223371430000000000] to [9223372036854775807]. *)
Theorem run_passes_bounded (inps : list run_inputs) :
  (∀ st, run_passes inps initial_state = Some st →
         (length (events st) ≤ 1000)%nat ∧
         (length (forecasts st) ≤ 20)%nat) ∧
  (Forall (λ inp, Forall event_in_range (new_events inp) ∧
                  clock_in_range (current_time inp)) inps →
   is_Some (run_passes inps initial_state)).
Proof.
  split.
  - assert (Hgen : ∀ st0 st,
      run_passes inps st0 = Some st →
      (length (events st0) ≤ 1000)%nat → (length (forecasts st0) ≤ 20)%nat →
      (length (events st) ≤ 1000)%nat ∧ (length (forecasts st) ≤ 20)%nat).
    { induction inps as [|inp inps IH]; intros st0 st Hrun He Hf.
      - by injection Hrun as <-.
      - simpl in Hrun.
        destruct (refresh_pass_checked inp st0) as [st1|] eqn:Hp; [|done].
        simpl in Hrun.
        destruct (refresh_pass_checked_bounds inp st0 st1 Hp He Hf).
        by eapply IH. }
    intros st Hrun. apply (Hgen initial_state st Hrun); simpl; lia.
  - assert (Hgen : ∀ st0,
      Forall event_in_range (events st0) →
      Forall (λ inp, Forall event_in_range (new_events inp) ∧
                     clock_in_range (current_time inp)) inps →
      is_Some (run_passes inps st0)).
    { induction inps as [|inp inps IH]; intros st0 Hst Hall.
      - by eexists.
      - apply Forall_cons in Hall as [[Hnew Hnow] Hall]. simpl.
        destruct (refresh_pass_checked_in_range inp st0 Hst Hnew Hnow)
          as (st1 & -> & Hst1).
        simpl. by apply IH. }
    apply Hgen. constructor.
Qed.

Lemma run_passes_bounded_witness :
  let inps := [RunInputs false false [Event 1700000003 25] 1700000005 20;
               RunInputs true false [Event 1700000006 40] 1700000008 20] in
  ∃ st, run_passes inps initial_state = Some st ∧
        (length (events st) ≤ 1000)%nat ∧ (length (forecasts st) ≤ 20)%nat.
Proof.
  intros inps. destruct (run_passes_bounded inps) as [Hb Hc].
  destruct Hc as [st Hst].
  - repeat (constructor;
            [split;
             [repeat (constructor; [split; unfold Qle; simpl; lia|]);
              constructor
             |split; unfold Qle; simpl; lia]|]).
    constructor.
  - exists st. split; [exact Hst | by apply Hb].
Defined.

End RangeFacts.

Section PassBehaviour.
Local Open Scope Q_scope.

(** X12. A run that completes records a forecast exactly when, after the
    buttons are read, the script is running and at least [forecast_every]
    seconds have passed since the last forecast.  In that case the
    aggregation returned a series, the newest record of the history is the
    clock value paired with the forecast of that series, which is not
    negative, the time of the last forecast becomes the clock value, and a
    history of at most 20 records becomes its last 20 records with the new
    one appended.  In every other case, paused or not yet due, the history
    and the time of the last forecast stay as they were. *)
Theorem forecast_gate (inp : run_inputs) (st st' : session_state) :
  refresh_pass_checked inp st = Some st' →
  let st1 := generate_events inp (buttons inp st) in
  let due :=
    should_run st1 = true ∧
    forecast_every inp <= current_time inp - last_forecast_time st in
  (due →
   ∃ bins v,
     aggregate_to_10s_bins_checked (events st1) (current_time inp)
       = Some bins ∧
     forecast_next_60s_simple bins.*2 = Some v ∧
     0 <= v ∧
     last (forecasts st') = Some (current_time inp, v) ∧
     last_forecast_time st' = current_time inp ∧
     ((length (forecasts st) ≤ 20)%nat →
      forecasts st' =
        drop (length (forecasts st ++ [(current_time inp, v)]) - 20)
          (forecasts st ++ [(current_time inp, v)]))) ∧
  (¬ due →
   forecasts st' = forecasts st ∧
   last_forecast_time st' = last_forecast_time st).
Proof.
  intros Hp st1 due. subst due.
  destruct (buttons_frame inp st) as (Hbe & Hbf & Hbt).
  assert (Hf1 : forecasts st1 = forecasts st).
  { subst st1. unfold generate_events.
    by destruct (should_run (buttons inp st)). }
  assert (Ht1 : last_forecast_time st1 = last_forecast_time st).
  { subst st1. unfold generate_events.
    by destruct (should_run (buttons inp st)). }
  unfold refresh_pass_checked in Hp. fold st1 in Hp.
  apply forecast_step_checked_cases in Hp
    as [[Hoff ->]|(Hrun & Hdue & bins & v & Hb & Hv & Hpos & ->)].
  - split.
    + intros [Hrun Hdue]. rewrite Hrun, Ht1 in Hoff. simpl in Hoff.
      apply Qle_bool_iff in Hdue. congruence.
    + by intros _.
  - rewrite Ht1 in Hdue. split; [|intros Hn; exfalso; by apply Hn].
    intros _. exists bins, v. split; [done|]. split; [done|].
    split; [done|]. simpl. rewrite Hf1. split; [|split; [done|]].
    + destruct (Nat.ltb_spec 20 (length (forecasts st ++ [(current_time inp, v)])))
        as [Hlt|_]; [|by rewrite last_snoc].
      destruct (forecasts st) as [|r rest]; [simpl in Hlt; lia|].
      simpl. rewrite drop_0. by rewrite last_snoc.
    + intros Hlen.
      destruct (Nat.ltb_spec 20 (length (forecasts st ++ [(current_time inp, v)])))
        as [Hlt|Hge]; rewrite length_app in *; simpl in *.
      * by replace (length (forecasts st) + 1 - 20)%nat with 1%nat by lia.
      * by replace (length (forecasts st) + 1 - 20)%nat with 0%nat by lia.
Qed.

Lemma forecast_gate_witness :
  let paused := RunInputs true false [Event 100 5] 130 20 in
  let due := RunInputs false false [Event 100 5] 130 20 in
  let st := SessionState [Event 1 2] [(1, 3)] 90 true in
  (∃ st' v, refresh_pass_checked due st = Some st' ∧
            last (forecasts st') = Some (130, v) ∧
            last_forecast_time st' = 130) ∧
  (∃ st', refresh_pass_checked paused st = Some st' ∧
          forecasts st' = forecasts st ∧
          last_forecast_time st' = last_forecast_time st).
Proof.
  intros paused due st. split.
  - destruct (refresh_pass_checked due st) as [st'|] eqn:Hp;
      [|vm_compute in Hp; discriminate Hp].
    destruct (proj1 (forecast_gate due st st' Hp))
      as (bins & v & _ & _ & _ & Hlast & Ht & _).
    + split; [reflexivity | unfold Qle; simpl; lia].
    + by exists st', v.
  - destruct (refresh_pass_checked paused st) as [st'|] eqn:Hp;
      [|vm_compute in Hp; discriminate Hp].
    destruct (proj2 (forecast_gate paused st st' Hp)) as [Hf Ht].
    + intros [Hrun _]. vm_compute in Hrun. discriminate Hrun.
    + by exists st'.
Defined.

(** X13. While the script runs, a run appends the new batch to the event
    buffer and keeps the last 1000 entries of the result, in order;
    the forecast step does not touch the buffer. *)
Theorem running_pass_ingests_batch (inp : run_inputs) (st : session_state) :
  should_run (buttons inp st) = true →
  (length (events st) ≤ 1000)%nat →
  ∃ st', refresh_pass inp st = Some st' ∧
         events st' =
           drop (length (events st ++ new_events inp) - 1000)
             (events st ++ new_events inp).
Proof.
  intros Hrun Hlen. unfold refresh_pass.
  destruct (forecast_step_events inp (generate_events inp (buttons inp st)))
    as (st' & Hst' & He & _).
  exists st'. split; [done|]. rewrite He.
  unfold generate_events. rewrite Hrun. simpl.
  destruct (buttons_frame inp st) as (-> & _ & _).
  apply deque_extend_last; [lia | done].
Qed.

Lemma running_pass_ingests_batch_witness :
  let inp := RunInputs false true [Event 100 5; Event 100 7] 100 20 in
  let st := SessionState [Event 1 2] [(1, 3)] 90 false in
  ∃ st', refresh_pass inp st = Some st' ∧
         events st' = [Event 1 2; Event 100 5; Event 100 7].
Proof.
  intros inp st.
  apply (running_pass_ingests_batch inp st); [reflexivity | simpl; lia].
Defined.

End PassBehaviour.

(** ** The error metric and what the page shows *)

Section ErrorMetric.
Local Open Scope Q_scope.

Lemma Qabs_zero_iff x : Qabs x == 0 ↔ x == 0.
Proof.
  split.
  - apply Qabs_case; intros; lra.
  - intros H. rewrite H. reflexivity.
Qed.

Lemma mape_value predicted realized :
  ∃ v, mape predicted realized = Some v ∧ 0 <= v ∧
       (v == 0 ↔ realized <= 0 ∨ predicted == realized).
Proof.
  unfold mape. destruct (Qlt_le_dec 0 realized) as [Hr|Hr].
  - rewrite div_Some by lra. eexists. split; [reflexivity|].
    pose proof (Qabs_nonneg (predicted - realized)) as Ha.
    pose proof (Qabs_zero_iff (predicted - realized)) as Hz.
    set (a := Qabs (predicted - realized)) in *.
    pose proof (Qinv_lt_0_compat realized Hr) as Hi.
    unfold Qdiv. set (i := / realized) in *.
    assert (Hai : 0 <= a * i) by (apply Qmult_le_0_compat; lra).
    split; [lra|]. split.
    + intros Hv. right. apply Qle_lteq in Ha as [Hpos|Hzero].
      * pose proof (Qmult_lt_0_compat a i Hpos Hi). lra.
      * symmetry in Hzero. apply Hz in Hzero. lra.
    + intros [Hle|Heq]; [lra|].
      assert (Ha0 : a == 0) by (apply Hz; lra).
      rewrite Ha0. ring.
  - exists 0. split; [done|]. split; [lra|]. split; [by left | reflexivity].
Qed.

(** X14. The error metric is never negative, and it is zero in two cases
    only: nothing was realized (a realized value of zero or less), or the
    forecast equals the realized value. *)
Theorem mape_nonneg_zero (predicted realized : Q) :
  ∃ v, mape predicted realized = Some v ∧ 0 <= v ∧
       (v == 0 ↔ realized <= 0 ∨ predicted == realized).
Proof. apply mape_value. Qed.




End ErrorMetric.

(** ** The activity dashboard *)

Section ActivityFacts.
Local Open Scope Q_scope.

Lemma foldl_max_spec (m : Q) (xs : list Q) :
  let r := foldl (λ m y, if Qlt_le_dec m y then y else m) m xs in
  m <= r ∧ (∀ x, x ∈ xs → x <= r) ∧ r ∈ m :: xs.
Proof.
  revert m. induction xs as [|y xs IH]; intros m; simpl.
  - split; [lra|]. split; [by intros x ?%elem_of_nil | left].
  - destruct (IH (if Qlt_le_dec m y then y else m)) as (Hm & Hall & Hin).
    simpl in Hm, Hall, Hin.
    set (r := foldl _ _ xs) in *. clearbody r.
    destruct (Qlt_le_dec m y) as [Hlt|Hle].
    + split; [lra|]. split.
      * intros x [->|Hx]%elem_of_cons; [done | by apply Hall].
      * apply elem_of_cons in Hin as [->|Hin];
          [right; left | by do 2 right].
    + split; [lra|]. split.
      * intros x [->|Hx]%elem_of_cons; [lra | by apply Hall].
      * apply elem_of_cons in Hin as [->|Hin]; [left | by do 2 right].
Qed.

Lemma foldl_min_spec (m : Q) (xs : list Q) :
  let r := foldl (λ m y, if Qlt_le_dec y m then y else m) m xs in
  r <= m ∧ (∀ x, x ∈ xs → r <= x) ∧ r ∈ m :: xs.
Proof.
  revert m. induction xs as [|y xs IH]; intros m; simpl.
  - split; [lra|]. split; [by intros x ?%elem_of_nil | left].
  - destruct (IH (if Qlt_le_dec y m then y else m)) as (Hm & Hall & Hin).
    simpl in Hm, Hall, Hin.
    set (r := foldl _ _ xs) in *. clearbody r.
    destruct (Qlt_le_dec y m) as [Hlt|Hle].
    + split; [lra|]. split.
      * intros x [->|Hx]%elem_of_cons; [done | by apply Hall].
      * apply elem_of_cons in Hin as [->|Hin];
          [right; left | by do 2 right].
    + split; [lra|]. split.
      * intros x [->|Hx]%elem_of_cons; [lra | by apply Hall].
      * apply elem_of_cons in Hin as [->|Hin]; [left | by do 2 right].
Qed.

Lemma series_max_spec xs :
  xs ≠ [] →
  ∃ p, App.series_max xs = Some p ∧ (∀ x, x ∈ xs → x <= p) ∧ p ∈ xs.
Proof.
  destruct xs as [|x xs]; [done|]. intros _.
  destruct (foldl_max_spec x xs) as (Hm & Hall & Hin).
  eexists. split; [reflexivity|]. split; [|exact Hin].
  intros y [->|Hy]%elem_of_cons; [exact Hm | by apply Hall].
Qed.

Lemma series_min_spec xs :
  xs ≠ [] →
  ∃ l, App.series_min xs = Some l ∧ (∀ x, x ∈ xs → l <= x) ∧ l ∈ xs.
Proof.
  destruct xs as [|x xs]; [done|]. intros _.
  destruct (foldl_min_spec x xs) as (Hm & Hall & Hin).
  eexists. split; [reflexivity|]. split; [|exact Hin].
  intros y [->|Hy]%elem_of_cons; [exact Hm | by apply Hall].
Qed.

Lemma activity_render_nonempty (st : App.session_state) :
  App.data st ≠ [] →
  let values := App.value <$> App.data st in
  ∃ c p l,
    App.render st = Some (App.Metrics c p l) ∧
    last values = Some c ∧
    (∀ x, x ∈ values → l <= x ∧ x <= p) ∧
    p ∈ values ∧ l ∈ values.
Proof.
  intros Hne values. unfold App.render.
  destruct (App.data st) as [|d ds]; [done|].
  assert (Hv : values ≠ []) by done.
  destruct (series_max_spec values Hv) as (p & Hp & Hpall & Hpin).
  destruct (series_min_spec values Hv) as (l & Hl & Hlall & Hlin).
  destruct (last values) as [c|] eqn:Hc.
  2:{ apply last_None in Hc. done. }
  exists c, p, l. cbv zeta. fold values. rewrite Hc, Hp, Hl.
  split; [done|]. split; [done|]. split; [|done].
  intros x Hx. split; [by apply Hlall | by apply Hpall].
Qed.



(** X17. A run of the activity script keeps the buffer at 100 points or
    fewer.  While running it appends the new point and keeps the last 100
    points, in order, and the page then shows the new point's value as
    current; while paused it leaves the buffer as it was. *)
Theorem activity_pass (inp : App.run_inputs) (st : App.session_state) :
  (length (App.data st) ≤ 100)%nat →
  let st' := App.refresh_pass inp st in
  (length (App.data st') ≤ 100)%nat ∧
  (App.should_run (App.buttons inp st) = true →
   App.data st' =
     drop (length (App.data st ++ [App.new_point inp]) - 100)
       (App.data st ++ [App.new_point inp]) ∧
   ∃ p l, App.render st'
          = Some (App.Metrics (App.value (App.new_point inp)) p l)) ∧
  (App.should_run (App.buttons inp st) = false → App.data st' = App.data st).
Proof.
  intros Hlen st'. subst st'. unfold App.refresh_pass, App.ingest.
  assert (Hb : App.data (App.buttons inp st) = App.data st).
  { unfold App.buttons.
    by destruct (App.pause_clicked inp), (App.resume_clicked inp). }
  assert (Hkeep :
    Buffer.append_keep_last 100 (App.data st) (App.new_point inp) =
    drop (length (App.data st ++ [App.new_point inp]) - 100)
      (App.data st ++ [App.new_point inp])).
  { unfold Buffer.append_keep_last. by rewrite slice_last_drop by lia. }
  destruct (App.should_run (App.buttons inp st)) eqn:Hrun; simpl;
    rewrite Hb.
  - rewrite Hkeep. split; [rewrite length_drop; lia|].
    split; [|done]. intros _. split; [done|].
    set (kept := drop _ _).
    assert (Hlast : last kept = Some (App.new_point inp)).
    { subst kept. rewrite length_app. simpl.
      rewrite drop_app_le by lia. by rewrite last_snoc. }
    assert (Hne : kept ≠ []) by (intros E; by rewrite E in Hlast).
    destruct (activity_render_nonempty
                {| App.data := kept; App.should_run := true |} Hne)
      as (c & p & l & Hr & Hc & _).
    simpl in Hc. rewrite fmap_last, Hlast in Hc. simpl in Hc.
    injection Hc as <-. by exists p, l.
  - split; [done|]. split; [done|]. done.
Qed.

Lemma activity_pass_witness :
  let inp := App.RunInputs false false (App.DataPoint 4 61) in
  let st := App.SessionState [App.DataPoint 1 52; App.DataPoint 2 97] true in
  App.data (App.refresh_pass inp st)
    = [App.DataPoint 1 52; App.DataPoint 2 97; App.DataPoint 4 61].
Proof.
  intros inp st.
  assert (Hlen : (length (App.data st) ≤ 100)%nat) by (simpl; lia).
  destruct (activity_pass inp st Hlen) as (_ & Hrun & _).
  destruct (Hrun eq_refl) as [Hd _]. exact Hd.
Defined.

End ActivityFacts.

(** ** The sales dashboard *)

Section SalesFacts.
Local Open Scope Q_scope.

Lemma sum_at_least (k : Q) (xs : list Q) :
  (∀ x, x ∈ xs → k <= x) →
  inject_Z (Z.of_nat (length xs)) * k <= Float.sum xs.
Proof.
  induction xs as [|x xs IH]; intros H.
  - change (0 * k <= 0). lra.
  - rewrite sum_cons. cbn [length]. rewrite Nat2Z.inj_succ.
    unfold Z.succ. rewrite inject_Z_plus.
    assert (k <= x) by (apply H; left).
    assert (inject_Z (Z.of_nat (length xs)) * k <= Float.sum xs)
      by (apply IH; intros y Hy; apply H; by right).
    change (inject_Z 1) with 1. lra.
Qed.

Lemma length_as_Q_pos {A} (xs : list A) :
  xs ≠ [] → 1 <= inject_Z (Z.of_nat (length xs)).
Proof.
  intros Hne. destruct xs as [|x xs]; [done|].
  change 1 with (inject_Z 1). rewrite <- Zle_Qle. simpl. lia.
Qed.

Lemma compute_metrics_nonempty (recent : list Sales.sale) :
  recent ≠ [] →
  Sales.compute_metrics recent =
    (let revenue := Float.sum (Sales.price <$> recent) in
     let orders_f := inject_Z (Z.of_nat (length recent)) in
     aov ← Float.div revenue orders_f;
     avg_traffic ←
       Float.mean ((λ e, inject_Z (Sales.traffic_this_min e)) <$> recent);
     conversion ←
       (if Qlt_le_dec 0 avg_traffic then
          ratio ← Float.div orders_f avg_traffic; Some (ratio * 100)
        else Some 0);
     Some (Sales.KeyMetrics revenue (length recent) aov conversion)).
Proof. by destruct recent. Qed.

(** X18. The key metrics of the sales page are computed without raising
    for every list of recent sales, whatever the traffic figures, zero and
    negative ones included: an empty list gives four zeros; otherwise the
    revenue is the sum of the prices, the order count the number of sales,
    and the conversion rate is not negative.  When every sale carries a
    traffic figure of at least 50, the floor the generator applies, the
    conversion rate is positive. *)
Theorem sales_metrics (recent : list Sales.sale) :
  ∃ m, Sales.compute_metrics recent = Some m ∧
       (recent = [] → m = Sales.KeyMetrics 0 0 0 0) ∧
       Sales.orders_last_min m = length recent ∧
       Sales.revenue_last_min m = Float.sum (Sales.price <$> recent) ∧
       0 <= Sales.conversion_rate m ∧
       (recent ≠ [] →
        (∀ e, e ∈ recent → (50 ≤ Sales.traffic_this_min e)%Z) →
        0 < Sales.conversion_rate m).
Proof.
  destruct (decide (recent = [])) as [->|Hne].
  { exists (Sales.KeyMetrics 0 0 0 0). simpl.
    split; [done|]. split; [done|]. split; [done|]. split; [done|].
    split; [lra | done]. }
  rewrite compute_metrics_nonempty by done. cbv zeta.
  set (n := inject_Z (Z.of_nat (length recent))).
  pose proof (length_as_Q_pos recent Hne) as Hn. fold n in Hn.
  rewrite (div_Some _ n) by lra. simpl.
  set (traffic := (λ e, inject_Z (Sales.traffic_this_min e)) <$> recent).
  assert (Htne : traffic ≠ []).
  { subst traffic. by destruct recent. }
  rewrite (mean_Some traffic Htne). simpl.
  set (avg := Spec.mean traffic).
  destruct (Qlt_le_dec 0 avg) as [Havg|Havg].
  - rewrite (div_Some n avg) by lra. simpl. eexists. split; [reflexivity|].
    simpl. split; [done|]. split; [done|]. split; [done|].
    pose proof (Qinv_lt_0_compat avg Havg) as Hi.
    assert (Hconv : 0 < n / avg * 100).
    { unfold Qdiv. pose proof (Qmult_lt_0_compat n (/ avg)). lra. }
    split; [lra|]. by intros _ _.
  - eexists. split; [reflexivity|]. simpl.
    split; [done|]. split; [done|]. split; [done|]. split; [lra|].
    intros _ Htraffic. exfalso.
    assert (H50 : inject_Z (Z.of_nat (length traffic)) * 50 <= Float.sum traffic).
    { apply sum_at_least.
      intros x (e & -> & He)%list_elem_of_fmap.
      change 50 with (inject_Z 50). rewrite <- Zle_Qle. by apply Htraffic. }
    pose proof (length_as_Q_pos traffic Htne) as Hlt.
    revert Havg. subst avg. unfold Spec.mean. intros Havg.
    assert (0 < Float.sum traffic / inject_Z (Z.of_nat (length traffic))).
    { apply Qlt_shift_div_l; lra. }
    lra.
Qed.

End SalesFacts.

Lemma sales_metrics_witness :
  let recent := [Sales.Sale 100 120 80; Sales.Sale 101 60 120] in
  ∃ m, Sales.compute_metrics recent = Some m ∧
       (0 < Sales.conversion_rate m)%Q.
Proof.
  intros recent.
  destruct (sales_metrics recent) as (m & Hm & _ & _ & _ & _ & Hconv).
  exists m. split; [exact Hm|]. apply Hconv; [done|].
  intros e He.
  repeat (apply elem_of_cons in He as [->|He]; [simpl; lia|]).
  by apply elem_of_nil in He.
Defined.

(** ** The event generator *)

Section RandomFacts.
Local Open Scope Q_scope.

Lemma bisect_loop_S fuel a x lo hi :
  Random.bisect_loop (S fuel) a x lo hi =
    if (lo <? hi)%nat then
      match a !! ((lo + hi) `div` 2)%nat with
      | None => None
      | Some a_mid =>
          if Qlt_le_dec x a_mid
          then Random.bisect_loop fuel a x lo ((lo + hi) `div` 2)%nat
          else Random.bisect_loop fuel a x (S ((lo + hi) `div` 2)) hi
      end
    else Some lo.
Proof. reflexivity. Qed.

Lemma bisect_loop_spec fuel a x lo hi :
  (hi - lo ≤ fuel)%nat → (lo ≤ hi)%nat → (hi ≤ length a)%nat →
  ∃ i, Random.bisect_loop fuel a x lo hi = Some i ∧ (lo ≤ i ≤ hi)%nat.
Proof.
  revert lo hi. induction fuel as [|fuel IH]; intros lo hi Hfuel Hle Hhi.
  - exists lo. simpl. destruct (Nat.ltb_spec lo hi); [lia|]. split; [done|lia].
  - rewrite bisect_loop_S. destruct (Nat.ltb_spec lo hi) as [Hlt|Hge];
      [|exists lo; split; [done|lia]].
    assert (Hmid : (lo ≤ (lo + hi) `div` 2 < hi)%nat).
    { split.
      - apply Nat.div_le_lower_bound; lia.
      - apply Nat.Div0.div_lt_upper_bound; lia. }
    destruct (lookup_lt_is_Some_2 a ((lo + hi) `div` 2)) as [am Ham]; [lia|].
    rewrite Ham. destruct (Qlt_le_dec x am).
    + destruct (IH lo ((lo + hi) `div` 2)%nat) as (i & Hi & Hb); [lia..|].
      exists i. split; [done|lia].
    + destruct (IH (S ((lo + hi) `div` 2)) hi) as (i & Hi & Hb); [lia..|].
      exists i. split; [done|lia].
Qed.

Lemma accumulate_from_length acc ws :
  length (Random.accumulate_from acc ws) = length ws.
Proof. revert acc. induction ws as [|w ws IH]; intros acc; simpl; auto. Qed.

Lemma accumulate_length ws : length (Random.accumulate ws) = length ws.
Proof. destruct ws; simpl; [done|]. by rewrite accumulate_from_length. Qed.

(** A choice among a non-empty population with as many weights, of
    positive total, reads one draw and returns a member of the population,
    whatever the draw. *)
Lemma choices_spec {A} (population : list A) (weights : list Q) u i :
  population ≠ [] →
  length weights = length population →
  (∀ total, last (Random.accumulate weights) = Some total → 0 < total) →
  ∃ a, Random.choices population weights u i = Some (a, S i) ∧
       a ∈ population.
Proof.
  intros Hne Hlen Htotal. unfold Random.choices.
  rewrite accumulate_length, Hlen, Nat.eqb_refl. simpl.
  destruct (last (Random.accumulate weights)) as [total|] eqn:Hlast.
  2:{ apply last_None in Hlast.
      apply (f_equal length) in Hlast. rewrite accumulate_length in Hlast.
      destruct population; [done | simpl in *; lia]. }
  unfold Random.bind at 1. simpl.
  destruct (Qle_bool total 0) eqn:Htot.
  { apply Qle_bool_iff in Htot. specialize (Htotal total eq_refl). lra. }
  unfold Random.bind, Random.random.
  destruct (bisect_loop_spec (length population - 1 - 0)
              (Random.accumulate weights) (u i * total) 0
              (length population - 1)) as (k & Hk & Hb);
    [lia | lia | rewrite accumulate_length; lia |].
  unfold Random.bisect. rewrite Hk. simpl.
  destruct (lookup_lt_is_Some_2 population k) as [a Ha].
  { destruct population; [done | simpl in *; lia]. }
  rewrite Ha. simpl. exists a. split; [done|].
  by eapply list_elem_of_lookup_2.
Qed.

Lemma dict_get_elem {V} (d : list (string * V)) (k : string) :
  k ∈ d.*1 → ∃ v, dict_get d k = Some v ∧ (k, v) ∈ d.
Proof.
  induction d as [|[k' v] d IH]; intros Hin; [by apply elem_of_nil in Hin|].
  simpl. destruct (decide (k' = k)) as [->|Hne].
  - exists v. split; [done | left].
  - destruct IH as (v' & Hv' & Hin').
    { apply elem_of_cons in Hin as [Heq|Hin]; [by symmetry in Heq | done]. }
    exists v'. split; [done | by right].
Qed.

Lemma round2_between (lo hi : Z) (x : Q) :
  inject_Z lo <= x → x <= inject_Z hi →
  inject_Z lo <= Random.round2 x ∧ Random.round2 x <= inject_Z hi.
Proof.
  intros Hlo Hhi. unfold Random.round2.
  destruct (round_half_even_between (lo * 100) (hi * 100) (x * 100))
    as [H1 H2].
  { rewrite inject_Z_mult. change (inject_Z 100) with 100. lra. }
  { rewrite inject_Z_mult. change (inject_Z 100) with 100. lra. }
  rewrite Zle_Qle in H1, H2. rewrite inject_Z_mult in H1, H2.
  change (inject_Z 100) with 100 in *.
  set (r := inject_Z (Float.round_half_even (x * 100))) in *.
  split.
  - apply Qle_shift_div_l; lra.
  - apply Qle_shift_div_r; lra.
Qed.

End RandomFacts.

Section GeneratorFacts.
Local Open Scope Q_scope.

Lemma category_weights_total total :
  last (Random.accumulate ((λ kv, weight kv.2) <$> CATEGORIES)) = Some total →
  0 < total.
Proof. intros H. vm_compute in H. by injection H as <-. Qed.

Lemma order_weights_total total :
  last (Random.accumulate [6 # 10; 25 # 100; 1 # 10; 5 # 100]) = Some total →
  0 < total.
Proof. intros H. vm_compute in H. by injection H as <-. Qed.

Lemma category_ranges name info :
  (name, info) ∈ CATEGORIES →
  (15 ≤ (price_range info).1 ≤ (price_range info).2)%Z ∧
  ((price_range info).2 ≤ 400)%Z.
Proof.
  intros Hin. unfold CATEGORIES in Hin.
  repeat (apply elem_of_cons in Hin as [[= -> ->]|Hin]; [simpl; lia|]).
  by apply elem_of_nil in Hin.
Qed.

Lemma order_loop_S n t acc u i :
  order_loop (S n) t acc u i =
    match Random.choices (fst <$> CATEGORIES)
            ((λ kv, weight kv.2) <$> CATEGORIES) u i with
    | None => None
    | Some (category, j) =>
        match dict_get CATEGORIES category with
        | None => None
        | Some info =>
            let min_p := inject_Z (price_range info).1 in
            let max_p := inject_Z (price_range info).2 in
            order_loop n t
              (acc ++ [Event t (Random.round2 (min_p + (max_p - min_p) * u j))])
              u (S j)
        end
    end.
Proof.
  cbn [order_loop]. unfold Random.bind at 1.
  destruct (Random.choices _ _ u i) as [[category j]|]; [|done].
  unfold Random.bind at 1.
  by destruct (dict_get CATEGORIES category).
Qed.

Lemma order_loop_spec n t acc u i :
  (∀ k, 0 <= u k ∧ u k <= 1) →
  ∃ new, order_loop n t acc u i = Some (acc ++ new, (i + 2 * n)%nat) ∧
         length new = n ∧
         ∀ e, e ∈ new → well_priced t e.
Proof.
  intros Hu. revert acc i. induction n as [|n IH]; intros acc i.
  - exists []. rewrite app_nil_r. simpl. rewrite Nat.add_0_r.
    split; [done|]. split; [done|]. by intros e ?%elem_of_nil.
  - rewrite order_loop_S.
    destruct (choices_spec (fst <$> CATEGORIES)
                ((λ kv, weight kv.2) <$> CATEGORIES) u i)
      as (category & -> & Hcat);
      [done | by rewrite !length_fmap | apply category_weights_total |].
    destruct (dict_get_elem CATEGORIES category Hcat) as (info & -> & Hinfo).
    cbv zeta.
    set (x := inject_Z (price_range info).1 +
              (inject_Z (price_range info).2 - inject_Z (price_range info).1)
              * u (S i)).
    destruct (IH (acc ++ [Event t (Random.round2 x)]) (S (S i)))
      as (new & Hnew & Hlen & Hall).
    exists (Event t (Random.round2 x) :: new).
    rewrite Hnew, <- app_assoc. simpl.
    split; [do 2 f_equal; lia|]. split; [by rewrite Hlen|].
    intros e [->|He]%elem_of_cons; [|by apply Hall].
    destruct (category_ranges category info Hinfo) as [[_ Hmm] _].
    rewrite Zle_Qle in Hmm.
    destruct (Hu (S i)) as [Hu0 Hu1].
    destruct (round2_between (price_range info).1 (price_range info).2 x)
      as [Hlo Hhi].
    { subst x. nra. }
    { subst x. nra. }
    split; [done|]. split; [by eexists|].
    exists category, info. by repeat split.
Qed.

(** X19. Whatever the draws of the random generator, between 0 and 1, one
    call to the generator returns between one and four events, all stamped
    with the clock value of the call, each priced at a whole number of
    cents within the price range of one of the five categories; it reads
    one draw for the number of orders and two per order.  The batch is the
    same for every base revenue and whether holiday mode is on or off:
    both only enter a rate that nothing reads afterwards. *)
Theorem generated_batch (t : Q) (u : nat → Q) (i : nat) :
  (∀ k, 0 <= u k ∧ u k <= 1) →
  ∃ evs,
    (∀ sin pi base_hourly_revenue holiday_mode,
       generate_sales_event sin pi base_hourly_revenue holiday_mode t u i
       = Some (evs, (i + 1 + 2 * length evs)%nat)) ∧
    (1 ≤ length evs ≤ 4)%nat ∧
    ∀ e, e ∈ evs → well_priced t e.
Proof.
  intros Hu.
  destruct (choices_spec [1; 2; 3; 4]%nat
              [6 # 10; 25 # 100; 1 # 10; 5 # 100] u i)
    as (num_orders & Hnum & Hin);
    [done | done | apply order_weights_total |].
  destruct (order_loop_spec num_orders t [] u (S i) Hu)
    as (evs & Hloop & Hlen & Hall).
  exists evs. split; [|split; [|done]].
  - intros sin pi base holiday. unfold generate_sales_event. cbv zeta.
    unfold Random.bind. rewrite Hnum, Hloop, Hlen. simpl.
    do 2 f_equal. lia.
  - rewrite Hlen.
    repeat (apply elem_of_cons in Hin as [->|Hin]; [lia|]).
    by apply elem_of_nil in Hin.
Qed.

Lemma generated_batch_witness :
  let u := λ k : nat,
    match k with
    | O => 7 # 10 | 1%nat => 1 # 2 | 2%nat => 1 # 3 | 3%nat => 99 # 100
    | _ => 1 # 7
    end in
  ∃ evs,
    generate_sales_event (λ x, x) 3 30000 true 1700000000 u 0%nat
      = Some (evs, (0 + 1 + 2 * length evs)%nat) ∧
    (1 ≤ length evs ≤ 4)%nat.
Proof.
  intros u.
  destruct (generated_batch 1700000000 u 0%nat) as (evs & Hgen & Hlen & _).
  - intros k. subst u. simpl.
    destruct k as [|[|[|[|k]]]]; split; discriminate.
  - exists evs. split; [apply Hgen | exact Hlen].
Defined.

End GeneratorFacts.
